(** * Tic Tac Toe (React front end): rules engine, controller and computer move

    A shallow embedding of [src/tic_tac_toe_frontend/src/App.js].

    - JavaScript arrays are objects: a [length] and a finite map from integer
      keys to values.  Reading a missing key gives [undefined] (here [None]),
      writing past the end extends the array, writing at a negative key adds
      a plain property, and [slice()] copies the indexed elements only.
    - The component state is the record [Session]; an event handler is a
      closure over the state of the render that created it and calls the
      state setters of the component.
    - Effects run after each render whose dependencies changed; the timeout
      started by the computer-move effect is an entry of a pending list. *)

From Stdlib Require Import ZArith QArith Qround Qpower Lqa.
From stdpp Require Import gmap list strings.

Close Scope Q_scope.
Local Open Scope Z_scope.

(** ** JavaScript arrays *)

Module Js.

Record array (A : Type) : Type := Array {
  length : Z;
  props : gmap Z A
}.
Arguments Array {A} _ _.
Arguments length {A} _.
Arguments props {A} _.

Global Instance array_eq_dec {A} `{EqDecision A} : EqDecision (array A).
Proof. solve_decision. Defined.

(** [a[i]]: [None] is [undefined]. *)
Definition get {A} (a : array A) (i : Z) : option A := props a !! i.

(** A key is an array index when it is an integer in [0, 2^32 - 2]. *)
Definition is_index (i : Z) : bool := (0 <=? i) && (i <? 2 ^ 32 - 1).

(** [a[i] = v]: an index at or past the end moves [length] to [i + 1]
    (the cells in between stay holes); any other key is a plain property. *)
Definition set {A} (a : array A) (i : Z) (v : A) : array A :=
  Array (if is_index i then Z.max (length a) (i + 1) else length a)
        (<[i := v]> (props a)).

(** [a.slice()]: a new array with the elements at [0 .. length - 1];
    holes stay holes and properties that are not indices are dropped. *)
Definition slice {A} (a : array A) : array A :=
  Array (length a)
        (filter (λ kv : Z * A, 0 <= kv.1 < length a) (props a)).

(** [Array(n)]: [n] holes. *)
Definition new {A} (n : Z) : array A := Array n ∅.

(** [a.fill(v)]: every index below [length] holds [v]. *)
Definition fill {A} (a : array A) (v : A) : array A :=
  Array (length a)
        (foldr (λ i m, <[i := v]> m) (props a) (seqZ 0 (length a))).

(** The elements the iteration methods visit: the indices below [length]
    that are present, in ascending order (holes are skipped). *)
Definition entries {A} (a : array A) : list (Z * A) :=
  omap (λ i, (λ v, (i, v)) <$> get a i) (seqZ 0 (length a)).

(** [a.every(p)] *)
Definition every {A} (p : A → bool) (a : array A) : bool :=
  forallb (λ kv, p kv.2) (entries a).

(** [a.map((v, i) => f(v, i))]: holes stay holes. *)
Definition map {A B} (f : A → Z → B) (a : array A) : array B :=
  Array (length a)
        (map_imap
           (λ i v, if bool_decide (0 <= i < length a) then Some (f v i) else None)
           (props a)).

(** An array literal [[x0, x1, ...]]. *)
Definition of_list {A} (l : list A) : array A :=
  Array (Z.of_nat (List.length l))
        (map_seqZ 0 l).

(** [a.filter(p)]: a dense array, here a list. *)
Definition filter {A} (p : A → bool) (a : array A) : list A :=
  List.filter p (snd <$> entries a).

End Js.

(** ** Data *)

Inductive Marker : Type := X | O.

Global Instance Marker_eq_dec : EqDecision Marker.
Proof. solve_decision. Defined.

(** A square holds ["X"], ["O"] or [null] (here [None]). *)
Definition Cell : Type := option Marker.

Definition Board : Type := Js.array Cell.

(** Truthiness of [squares[i]]: [undefined] and [null] are falsy, a
    marker string is truthy. *)
Definition truthy (v : option Cell) : bool :=
  match v with
  | Some (Some _) => true
  | _ => false
  end.

Definition BOARD_SIZE : Z := 3.

Definition EMPTY_BOARD : Board :=
  Js.fill (Js.new (BOARD_SIZE * BOARD_SIZE)) None.

(** ** Rules engine *)

Definition lines : list (Z * Z * Z) :=
  [ (0, 1, 2); (3, 4, 5); (6, 7, 8);
    (0, 3, 6); (1, 4, 7); (2, 5, 8);
    (0, 4, 8); (2, 4, 6) ].

(** The array [[a, b, c]] that [calculateWinner] hands back. *)
Definition line_cells (l : Z * Z * Z) : list Z :=
  let '(a, b, c) := l in [a; b; c].

(** The test of the loop body:
    [squares[a] && squares[a] === squares[b] && squares[a] === squares[c]]. *)
Definition line_full (squares : Board) (l : Z * Z * Z) : bool :=
  let '(a, b, c) := l in
  truthy (Js.get squares a)
  && bool_decide (Js.get squares a = Js.get squares b)
  && bool_decide (Js.get squares a = Js.get squares c).

Fixpoint scan_lines (squares : Board) (ls : list (Z * Z * Z))
  : Cell * list Z :=
  match ls with
  | [] => (None, [])
  | l :: rest =>
      if line_full squares l
      then (default None (Js.get squares l.1.1), line_cells l)
      else scan_lines squares rest
  end.

(** [calculateWinner(squares)]: [[winner, winningLineIndexes]] or
    [[null, []]]. *)
Definition calculateWinner (squares : Board) : Cell * list Z :=
  scan_lines squares lines.

(** [isDraw(squares)]: [squares.every(x => x !== null)]. *)
Definition isDraw (squares : Board) : bool :=
  Js.every (λ x : Cell, bool_decide (x ≠ None)) squares.

(** ** Computer move *)

(** *** Double arithmetic

    A double is read as the rational it denotes.  The product of two
    doubles is the double nearest to the exact product, ties going to the
    even significand (IEEE 754 binary64, the one rounding mode JavaScript
    has). *)

Definition pow2 (e : Z) : Q := ((2 # 1) ^ e)%Q.

(** The [l] with [2^l <= x < 2^(l+1)], for [0 < x]. *)
Definition floor_log2 (x : Q) : Z :=
  let l := Z.log2 (Qnum x) - Z.log2 (QDen x) in
  if Qle_bool (pow2 l) x then l else l - 1.

(** The integer nearest to [y], the even one of the two at a tie. *)
Definition round_half_even (y : Q) : Z :=
  let f := Qfloor y in
  match (y - inject_Z f ?= 1 # 2)%Q with
  | Lt => f
  | Gt => f + 1
  | Eq => if Z.even f then f else f + 1
  end.

(** The double nearest to [x], for [0 <= x] below the overflow threshold
    [2^1024]: a significand of 53 bits at the exponent of [x], or the
    fixed exponent [-1074] of the subnormal numbers. *)
Definition round_double (x : Q) : Q :=
  if Qle_bool x 0 then 0%Q
  else
    let e := Z.max (floor_log2 x - 52) (-1074) in
    (inject_Z (round_half_even (x / pow2 e)) * pow2 e)%Q.

(** The values [Math.random()] can return: the doubles in [0, 1), that is
    [m / 2^s] with a significand [m] of at most 53 bits and [s <= 1074]. *)
Definition random_value (r : Q) : Prop :=
  ∃ m s : Z,
    0 <= m < 2 ^ 53 ∧ 0 <= s <= 1074 ∧ m < 2 ^ s
    ∧ (r == inject_Z m / inject_Z (2 ^ s))%Q.

(** [Math.floor(Math.random() * n)], [r] being the value of
    [Math.random()]: the array length [n] is an integer, the product is
    rounded to a double and then floored. *)
Definition random_index (r : Q) (n : nat) : nat :=
  Z.to_nat (Qfloor (round_double (r * inject_Z (Z.of_nat n)))).

(** The body of the two [for] loops of [cpuMove]: square [i] is free and
    marking it on a copy makes [calculateWinner] report [who]. *)
Definition completes (squares : Board) (who : Marker) (i : Z) : bool :=
  negb (truthy (Js.get squares i))
  && bool_decide
       ((calculateWinner (Js.set (Js.slice squares) i (Some who))).1 = Some who).

(** [[0, 2, 6, 8].filter(i => !squares[i])] *)
Definition free_corners (squares : Board) : list Z :=
  List.filter (λ i, negb (truthy (Js.get squares i))) [0; 2; 6; 8].

(** [squares.map((v, i) => (v ? null : i)).filter(x => x !== null)] *)
Definition empties (squares : Board) : list (option Z) :=
  Js.filter (λ x : option Z, bool_decide (x ≠ None))
    (Js.map (λ (v : Cell) (i : Z), match v with Some _ => None | None => Some i end)
       squares).

(** [cpuMove(squares, player)]; [None] is [null].  An array read past the
    end would give [undefined], which is [None] here as well; it does not
    happen for a value [r] that [Math.random()] can return. *)
Definition cpuMove (r : Q) (squares : Board) (player : Marker) : option Z :=
  let opponent := if decide (player = X) then O else X in
  match List.find (completes squares player) (seqZ 0 9) with
  | Some i => Some i
  | None =>
  match List.find (completes squares opponent) (seqZ 0 9) with
  | Some i => Some i
  | None =>
      if negb (truthy (Js.get squares 4)) then Some 4 else
      let corners := free_corners squares in
      if bool_decide (List.length corners ≠ 0%nat)
      then corners !! random_index r (List.length corners)
      else
        let empties := empties squares in
        if bool_decide (List.length empties ≠ 0%nat)
        then default None (empties !! random_index r (List.length empties))
        else None
  end
  end.

(** ** Component state *)

Inductive Mode : Type := Mode2p | ModeCpu.

Global Instance Mode_eq_dec : EqDecision Mode.
Proof. solve_decision. Defined.

(** The six [useState] cells of [App]. *)
Record Session : Type := MkSession {
  mode : Mode;
  board : Board;
  xIsNext : bool;
  winner : Cell;
  winningLine : list Z;
  draw : bool
}.

Global Instance Session_eq_dec : EqDecision Session.
Proof. solve_decision. Defined.

Definition initial : Session :=
  MkSession Mode2p EMPTY_BOARD true None [] false.

(** The state setters. *)
Definition setMode (v : Mode) (s : Session) : Session :=
  MkSession v (board s) (xIsNext s) (winner s) (winningLine s) (draw s).
Definition setBoard (v : Board) (s : Session) : Session :=
  MkSession (mode s) v (xIsNext s) (winner s) (winningLine s) (draw s).
Definition setXIsNext (v : bool) (s : Session) : Session :=
  MkSession (mode s) (board s) v (winner s) (winningLine s) (draw s).
Definition setWinner (v : Cell) (s : Session) : Session :=
  MkSession (mode s) (board s) (xIsNext s) v (winningLine s) (draw s).
Definition setWinningLine (v : list Z) (s : Session) : Session :=
  MkSession (mode s) (board s) (xIsNext s) (winner s) v (draw s).
Definition setDraw (v : bool) (s : Session) : Session :=
  MkSession (mode s) (board s) (xIsNext s) (winner s) (winningLine s) v.

(** The game result as the component reads it ([StatusBar]: [winner]
    first, then [draw], else a turn is shown). *)
Inductive GameResult : Type :=
  | InProgress
  | Win (m : Marker) (line : list Z)
  | Draw.

Global Instance GameResult_eq_dec : EqDecision GameResult.
Proof. solve_decision. Defined.

Definition result (s : Session) : GameResult :=
  match winner s with
  | Some w => Win w (winningLine s)
  | None => if draw s then Draw else InProgress
  end.

(** The marker to move: [xIsNext ? "X" : "O"]. *)
Definition current (s : Session) : Marker := if xIsNext s then X else O.

(** ** Handlers

    A handler belongs to a render: it reads the state of that render (its
    closure, [cl]) and queues setter calls, which apply to the state of the
    component at the time the handler runs ([st]). *)

(** [resetGame()] *)
Definition resetGame (st : Session) : Session :=
  setDraw false
    (setWinningLine []
       (setWinner None
          (setXIsNext true
             (setBoard EMPTY_BOARD st)))).

(** [handlePlay(index)] *)
Definition handlePlay (cl : Session) (index : Z) (st : Session) : Session :=
  if truthy (Js.get (board cl) index) || bool_decide (winner cl ≠ None) || draw cl
  then st
  else
    let squares := Js.set (Js.slice (board cl)) index (Some (current cl)) in
    setXIsNext (negb (xIsNext cl)) (setBoard squares st).

(** The [disabled] attribute that [renderBoard] gives to square [idx]. *)
Definition square_disabled (s : Session) (idx : Z) : bool :=
  truthy (Js.get (board s) idx)
  || bool_decide (winner s ≠ None)
  || draw s
  || (bool_decide (mode s = ModeCpu) && negb (xIsNext s)).

(** ** Effects *)

(** A running [setTimeout(() => handlePlay(bestMove), 400)]: the render
    whose [handlePlay] it calls, and the move. *)
Record Timer : Type := MkTimer {
  timer_closure : Session;
  timer_move : Z
}.

(** Win/draw detection, dependencies [[board]]. *)
Definition detectEffect (cl : Session) (st : Session) : Session :=
  let '(win, line) := calculateWinner (board cl) in
  match win with
  | Some w => setDraw false (setWinningLine line (setWinner (Some w) st))
  | None =>
      if isDraw (board cl)
      then setDraw true (setWinner None st)
      else setDraw false (setWinningLine [] (setWinner None st))
  end.

(** Computer move, dependencies [[xIsNext, mode, winner, draw, board]]. *)
Definition cpuEffect (r : Q) (cl : Session) (pending : list Timer)
  : list Timer :=
  if bool_decide (mode cl ≠ ModeCpu) || bool_decide (winner cl ≠ None) || draw cl
  then pending
  else if negb (xIsNext cl)
  then match cpuMove r (board cl) O with
       | Some bestMove => pending ++ [MkTimer cl bestMove]
       | None => pending
       end
  else pending.

(** Reset on mode change, dependencies [[mode]]. *)
Definition modeEffect (st : Session) : Session := resetGame st.

(** The effects of one commit.  [prev] is the state of the render before,
    [cl] the state just rendered; an effect runs when one of its
    dependencies differs between the two.  The setter calls of the effects
    are applied in order to the rendered state.

    The dependencies are compared here by value.  React compares the two
    arrays by identity; the two agree on every board change the handlers
    make, except that a late timeout may store a fresh copy of a board
    equal to the current one, and then the effects that React runs again
    set what is already set and start no timeout ([xIsNext] is [true]). *)
Definition commitState (prev cl : Session) : Session :=
  let st1 :=
    if bool_decide (board prev ≠ board cl) then detectEffect cl cl else cl in
  if bool_decide (mode prev ≠ mode cl) then modeEffect st1 else st1.

Definition commitTimers (r : Q) (prev cl : Session) (pending : list Timer)
  : list Timer :=
  if bool_decide (xIsNext prev ≠ xIsNext cl) || bool_decide (mode prev ≠ mode cl)
     || bool_decide (winner prev ≠ winner cl) || bool_decide (draw prev ≠ draw cl)
     || bool_decide (board prev ≠ board cl)
  then cpuEffect r cl pending else pending.

Definition commit (r : Q) (prev cl : Session) (pending : list Timer)
  : Session * list Timer :=
  (commitState prev cl, commitTimers r prev cl pending).

(** Render, run the effects, render again while the effects changed the
    state. [None]: the renders did not come to rest within [fuel] commits. *)
Fixpoint renderLoop (fuel : nat) (r : Q) (prev cl : Session)
    (pending : list Timer) : option (Session * list Timer) :=
  match fuel with
  | 0%nat => None
  | S fuel' =>
      let '(st, pending') := commit r prev cl pending in
      if bool_decide (st = cl) then Some (cl, pending')
      else renderLoop fuel' r cl st pending'
  end.

(** ** The application *)

Record App : Type := MkApp {
  session : Session;
  timers : list Timer
}.

Inductive Event : Type :=
  | Play (index : Z)        (* [handlePlay(index)] of the current render *)
  | Reset                   (* the Reset button: [resetGame()] *)
  | SetMode (m : Mode)      (* the mode selector: [setMode(m)] *)
  | Fire.                   (* the oldest timeout expires *)

Definition settle (r : Q) (prev st : Session) (pending : list Timer)
  : option App :=
  (λ p : Session * list Timer, MkApp p.1 p.2) <$> renderLoop 3 r prev st pending.

(** One event, then the renders it causes. [r] is the value [Math.random()]
    gives if the computer-move effect asks for one. *)
Definition step (r : Q) (e : Event) (a : App) : option App :=
  let s := session a in
  match e with
  | Play index => settle r s (handlePlay s index s) (timers a)
  | Reset => settle r s (resetGame s) (timers a)
  | SetMode m => settle r s (setMode m s) (timers a)
  | Fire =>
      match timers a with
      | [] => Some a
      | t :: rest =>
          settle r s (handlePlay (timer_closure t) (timer_move t) s) rest
      end
  end.

Fixpoint run (r : Q) (es : list Event) (a : App) : option App :=
  match es with
  | [] => Some a
  | e :: es' => step r e a ≫= run r es'
  end.

Definition start : App := MkApp initial [].

(** The first render: every effect runs once, then the renders settle. *)
Definition mount (r : Q) : option App :=
  let st := modeEffect (detectEffect initial initial) in
  settle r initial st (cpuEffect r initial []).

(** ** Vocabulary of the statements *)

(** [reset(mode)] in the words of the specification: the board all empty,
    the current marker X, the game in progress, the mode the given one, or
    the current one when none is given. *)
Definition spec_reset (m : option Mode) (s : Session) : Session :=
  MkSession (default (mode s) m) EMPTY_BOARD true None [] false.

(** Boards used as examples. *)
Definition board_diagonal : Board :=
  Js.of_list [Some X; Some X; Some O;
              Some O; Some X; None;
              None;   None;   Some X].

Definition board_win_or_block : Board :=
  Js.of_list [Some O; Some O; None;
              Some X; Some X; None;
              None;   None;   None].

Definition board_top_row : Board :=
  Js.of_list [Some X; Some X; Some X;
              None;   Some O; Some O;
              None;   None;   None].

Definition board_two_each : Board :=
  Js.of_list [Some X; Some X; None;
              None;   Some O; Some O;
              None;   None;   None].

Definition board_x0 : Board :=
  Js.of_list [Some X; None; None;
              None;   None; None;
              None;   None; None].

Definition board_x0_o4 : Board :=
  Js.of_list [Some X; None;   None;
              None;   Some O; None;
              None;   None;   None].

(** Two players, after [play(0)], [play(4)], [play(1)], [play(5)]. *)
Definition app_two_each : App :=
  MkApp (MkSession Mode2p board_two_each true None [] false) [].

(** ... and after [play(2)]. *)
Definition app_top_row : App :=
  MkApp (MkSession Mode2p board_top_row false (Some X) [0; 1; 2] false) [].

(** Against the computer, after [play(0)]: the computer's move to the
    centre is pending. *)
Definition session_cpu_x0 : Session :=
  MkSession ModeCpu board_x0 false None [] false.

Definition app_cpu_x0 : App :=
  MkApp session_cpu_x0 [MkTimer session_cpu_x0 4].

(** A board of 9 cells: nine squares, each holding a marker or [null]. *)
Definition board9 (b : Board) : Prop :=
  Js.length b = 9 ∧ ∀ k, 0 <= k < 9 → is_Some (Js.get b k).

Definition board9b (b : Board) : bool :=
  bool_decide (Js.length b = 9)
  && forallb (λ k, bool_decide (is_Some (Js.get b k))) (seqZ 0 9).

(** Square [k] is free ([null]) / taken (holds a marker). *)
Definition free (b : Board) (k : Z) : Prop := truthy (Js.get b k) = false.
Definition taken (b : Board) (k : Z) : Prop := truthy (Js.get b k) = true.

(** All three squares of line [l] hold marker [m]. *)
Definition holds_line (b : Board) (l : Z * Z * Z) (m : Marker) : Prop :=
  Js.get b l.1.1 = Some (Some m)
  ∧ Js.get b l.1.2 = Some (Some m)
  ∧ Js.get b l.2 = Some (Some m).

(** The evaluation of a board: what the component shows once the
    win/draw detection effect has run on it. *)
Definition evaluate (b : Board) : GameResult :=
  result (detectEffect (setBoard b initial) initial).

Definition other (m : Marker) : Marker :=
  match m with X => O | O => X end.

(** Square [i] is free and marking it with [who] evaluates to a win of
    [who]. *)
Definition wins_at (b : Board) (who : Marker) (i : Z) : Prop :=
  free b i ∧ ∃ line, evaluate (Js.set (Js.slice b) i (Some who)) = Win who line.

Definition no_win (b : Board) (who : Marker) : Prop :=
  ∀ k, 0 <= k < 9 → ¬ wins_at b who k.

(** [j] is the smallest index at which [who] wins. *)
Definition first_win (b : Board) (who : Marker) (j : Z) : Prop :=
  0 <= j < 9 ∧ wins_at b who j ∧ ∀ k, 0 <= k < j → ¬ wins_at b who k.

Definition corner (j : Z) : Prop := j = 0 ∨ j = 2 ∨ j = 6 ∨ j = 8.

(** The 8 lines as the specification lists them: the 3 rows, then the 3
    columns, then the 2 diagonals; square [i] is in row [i / 3] and column
    [i mod 3]. *)
Definition rows_columns_diagonals : list (Z * Z * Z) :=
  ((λ i, (3 * i, 3 * i + 1, 3 * i + 2)) <$> seqZ 0 3)
  ++ ((λ j, (j, j + 3, j + 6)) <$> seqZ 0 3)
  ++ [(0, 4, 8); (2, 4, 6)].

(** No line of the table is held by anyone. *)
Definition no_line (b : Board) : Prop :=
  ∀ l m, l ∈ lines → ¬ holds_line b l m.

(** [l] is the first line of the table, in its order, that is held. *)
Definition first_line (b : Board) (l : Z * Z * Z) (m : Marker) : Prop :=
  ∃ i : nat,
    lines !! i = Some l ∧ holds_line b l m
    ∧ ∀ (j : nat) l' m',
        (j < i)%nat → lines !! j = Some l' → ¬ holds_line b l' m'.

(** ** The page *)

(** [StatusBar({ winner, draw, current, mode })]: the text of the status
    line. *)
Definition StatusBar (winner : Cell) (draw : bool) (current : Marker)
    (mode : Mode) : string :=
  match winner with
  | Some w =>
      if bool_decide (mode = ModeCpu) && bool_decide (w = O)
      then "Computer Wins! 😎"
      else String.append (if bool_decide (w = X) then "Player 1" else "Player 2")
                         " Wins! 🎉"
  | None =>
      if draw then "It's a Draw. 🤝"
      else if bool_decide (mode = ModeCpu) && bool_decide (current = O)
      then "Computer's Turn"
      else
        String.append
          (if bool_decide (mode = ModeCpu) && bool_decide (current = X)
           then "Your Turn"
           else String.append
                  (if bool_decide (current = X) then "Player 1" else "Player 2")
                  "'s Turn")
          (if bool_decide (current = X) then " (X)" else " (O)")
  end.

(** The status line [App] renders. *)
Definition statusText (s : Session) : string :=
  StatusBar (winner s) (draw s) (current s) (mode s).

(** The properties [renderBoard] hands to one [Square]; [onClick] is
    [handlePlay(idx)]. *)
Record SquareProps : Type := MkSquare {
  sq_index : Z;
  sq_value : option Cell;
  sq_highlight : bool;
  sq_disabled : bool
}.

(** The [Square] that [renderBoard] makes for index [idx]:
    [value={board[idx]}], [highlight={winningLine.includes(idx)}] and the
    [disabled] attribute. *)
Definition square_at (s : Session) (idx : Z) : SquareProps :=
  MkSquare idx (Js.get (board s) idx)
    (bool_decide (idx ∈ winningLine s))
    (square_disabled s idx).

(** [renderBoard()]: the rows of squares, [idx = rowIdx * BOARD_SIZE +
    colIdx]. *)
Definition renderBoard (s : Session) : list (list SquareProps) :=
  (λ rowIdx,
     (λ colIdx, square_at s (rowIdx * BOARD_SIZE + colIdx))
       <$> seqZ 0 BOARD_SIZE)
    <$> seqZ 0 BOARD_SIZE.

(** What the session shows is what the detection effect derives from its
    board. *)
Definition shows_board (s : Session) : Prop :=
  match calculateWinner (board s) with
  | (Some w, line) =>
      winner s = Some w ∧ winningLine s = line ∧ draw s = false
  | (None, _) =>
      winner s = None ∧ draw s = isDraw (board s)
      ∧ (isDraw (board s) = false → winningLine s = [])
  end.

(** ** Runs of the application *)

(** The states some sequence of events leads to; each event brings its own
    value of [Math.random()]. *)
Inductive reachable : App → Prop :=
  | reach_start : reachable start
  | reach_step (r : Q) (e : Event) (a a' : App) :
      reachable a → (0 <= r)%Q → (r < 1)%Q → step r e a = Some a' →
      reachable a'.

(** The events the page can produce: a click on a rendered square that is
    not disabled, the Reset button, the mode selector, the expiry of a
    timeout. *)
Definition page_event (a : App) (e : Event) : Prop :=
  match e with
  | Play idx =>
      ∃ sq, sq ∈ concat (renderBoard (session a))
            ∧ sq_disabled sq = false ∧ sq_index sq = idx
  | Reset | SetMode _ | Fire => True
  end.

Inductive page_reachable : App → Prop :=
  | page_start : page_reachable start
  | page_step (r : Q) (e : Event) (a a' : App) :
      page_reachable a → page_event a e →
      random_value r → step r e a = Some a' →
      page_reachable a'.

(** The number of squares 0..8 that hold marker [m]. *)
Definition count_mark (b : Board) (m : Marker) : nat :=
  sum_list_with
    (λ k, if bool_decide (Js.get b k = Some (Some m)) then 1%nat else 0%nat)
    (seqZ 0 9).

(** The marker to move agrees with the marks on the board: as many X as O
    when X is next, one X more when O is next. *)
Definition turn_matches (s : Session) : Prop :=
  count_mark (board s) X
  = (count_mark (board s) O + (if xIsNext s then 0 else 1))%nat.

(** A pending timeout as the computer-move effect makes them. *)
Definition timer_ok (t : Timer) : Prop :=
  board9 (board (timer_closure t))
  ∧ result (timer_closure t) = InProgress
  ∧ xIsNext (timer_closure t) = false
  ∧ turn_matches (timer_closure t)
  ∧ 0 <= timer_move t < 9
  ∧ free (board (timer_closure t)) (timer_move t).

(** What every state reached through the page satisfies. *)
Definition page_ok (a : App) : Prop :=
  board9 (board (session a))
  ∧ turn_matches (session a)
  ∧ Forall timer_ok (timers a).

(** * Properties *)

(** ** Arrays *)

Section ArrayFacts.
Context {A : Type}.
Implicit Types (a : Js.array A) (i j : Z) (v : A).

Lemma get_set_eq a i v : Js.get (Js.set a i v) i = Some v.
Proof. unfold Js.get, Js.set; simpl. apply lookup_insert_eq. Qed.

Lemma get_set_ne a i j v : i ≠ j → Js.get (Js.set a i v) j = Js.get a j.
Proof. intros Hne. unfold Js.get, Js.set; simpl. by apply lookup_insert_ne. Qed.

Lemma get_slice a i :
  Js.get (Js.slice a) i
  = if bool_decide (0 <= i < Js.length a) then Js.get a i else None.
Proof.
  unfold Js.get, Js.slice; simpl.
  case_bool_decide as Hi.
  - destruct (Js.props a !! i) as [v|] eqn:E.
    + apply map_lookup_filter_Some. done.
    + apply map_lookup_filter_None. left. done.
  - apply map_lookup_filter_None. right. intros v _. simpl. done.
Qed.

Lemma length_slice a : Js.length (Js.slice a) = Js.length a.
Proof. reflexivity. Qed.

Lemma length_set_inside a i v :
  0 <= i < Js.length a → Js.length (Js.set a i v) = Js.length a.
Proof.
  intros Hi. unfold Js.set, Js.is_index; simpl.
  destruct (_ && _); lia.
Qed.

(** Marking a square of a copy: the square holds the mark, the squares
    inside the array are as before. *)
Lemma get_place a i j v :
  0 <= j < Js.length a →
  Js.get (Js.set (Js.slice a) i v) j = if decide (i = j) then Some v else Js.get a j.
Proof.
  intros Hj. destruct (decide (i = j)) as [->|Hne].
  - apply get_set_eq.
  - rewrite get_set_ne by done. rewrite get_slice.
    rewrite bool_decide_eq_true_2; done.
Qed.

Lemma entries_spec a i v :
  (i, v) ∈ Js.entries a ↔ 0 <= i < Js.length a ∧ Js.get a i = Some v.
Proof.
  unfold Js.entries. rewrite list_elem_of_omap. split.
  - intros (k & Hk & Hf). apply elem_of_seqZ in Hk.
    destruct (Js.get a k) as [w|] eqn:E; simpl in Hf; [|done].
    injection Hf as <- <-. split; [lia | done].
  - intros [Hi Hv]. exists i. split.
    + apply elem_of_seqZ. lia.
    + rewrite Hv. done.
Qed.

Lemma every_spec (p : A → bool) a :
  Js.every p a = true
  ↔ ∀ i v, 0 <= i < Js.length a → Js.get a i = Some v → p v = true.
Proof.
  unfold Js.every. rewrite forallb_forall. split.
  - intros H i v Hi Hv. apply (H (i, v)).
    apply list_elem_of_In, entries_spec. done.
  - intros H [i v] Hin. apply list_elem_of_In, entries_spec in Hin as [Hi Hv].
    simpl. by eapply H.
Qed.
End ArrayFacts.

(** ** The random index *)

Lemma pow2_pos (e : Z) : (0 < pow2 e)%Q.
Proof. apply Qpower_0_lt. reflexivity. Qed.

Lemma pow2_plus (a b : Z) : (pow2 (a + b) == pow2 a * pow2 b)%Q.
Proof. apply Qpower_plus. discriminate. Qed.

(** [floor_log2] is the exponent of [x]. *)
Lemma floor_log2_le (x : Q) : (0 < x)%Q → (pow2 (floor_log2 x) <= x)%Q.
Proof.
  intros Hx. unfold floor_log2.
  set (l := Z.log2 (Qnum x) - Z.log2 (QDen x)).
  destruct (Qle_bool (pow2 l) x) eqn:E; [by apply Qle_bool_iff|].
  destruct x as [p q]. cbn [Qnum Qden] in l.
  assert (0 < p) as Hp by (unfold Qlt in Hx; simpl in Hx; lia).
  pose proof (Z.log2_spec p Hp) as [Hp1 Hp2].
  pose proof (Z.log2_spec (Z.pos q) (Pos2Z.is_pos q)) as [Hq1 Hq2].
  pose proof (Z.log2_nonneg p) as Hlp.
  pose proof (Z.log2_nonneg (Z.pos q)) as Hlq.
  assert (pow2 (l - 1) == pow2 (Z.log2 p) / pow2 (Z.log2 (Z.pos q) + 1))%Q
    as Hl.
  { unfold l, pow2.
    replace (Z.log2 p - Z.log2 (Z.pos q) - 1)
      with (Z.log2 p - (Z.log2 (Z.pos q) + 1)) by lia.
    apply Qpower_minus. discriminate. }
  rewrite Hl.
  unfold pow2. rewrite <- !(Zpower_Qpower 2) by lia.
  apply Qle_shift_div_r.
  { rewrite <- (Zlt_Qlt 0). lia. }
  rewrite <- Z.add_1_r in Hq2.
  set (a := 2 ^ Z.log2 p) in *. set (b := 2 ^ (Z.log2 (Z.pos q) + 1)) in *.
  unfold Qle, Qmult, inject_Z; simpl. nia.
Qed.

Lemma floor_log2_lt (x : Q) : (0 < x)%Q → (x < pow2 (floor_log2 x + 1))%Q.
Proof.
  intros Hx. unfold floor_log2.
  set (l := Z.log2 (Qnum x) - Z.log2 (QDen x)).
  destruct (Qle_bool (pow2 l) x) eqn:E.
  2:{ replace (l - 1 + 1) with l by lia. apply Qnot_le_lt. intros H.
      apply Qle_bool_iff in H. congruence. }
  destruct x as [p q]. cbn [Qnum Qden] in l.
  assert (0 < p) as Hp by (unfold Qlt in Hx; simpl in Hx; lia).
  pose proof (Z.log2_spec p Hp) as [Hp1 Hp2].
  pose proof (Z.log2_spec (Z.pos q) (Pos2Z.is_pos q)) as [Hq1 Hq2].
  pose proof (Z.log2_nonneg p) as Hlp.
  pose proof (Z.log2_nonneg (Z.pos q)) as Hlq.
  assert (pow2 (l + 1) == pow2 (Z.log2 p + 1) / pow2 (Z.log2 (Z.pos q)))%Q
    as Hl.
  { unfold l, pow2.
    replace (Z.log2 p - Z.log2 (Z.pos q) + 1)
      with (Z.log2 p + 1 - Z.log2 (Z.pos q)) by lia.
    apply Qpower_minus. discriminate. }
  rewrite Hl. unfold pow2. rewrite <- !(Zpower_Qpower 2) by lia.
  apply Qlt_shift_div_l.
  { rewrite <- (Zlt_Qlt 0). apply Z.pow_pos_nonneg; lia. }
  rewrite <- Z.add_1_r in Hp2.
  set (a := 2 ^ (Z.log2 p + 1)) in *. set (b := 2 ^ Z.log2 (Z.pos q)) in *.
  unfold Qlt, Qmult, inject_Z; simpl. nia.
Qed.

(** [round_half_even] is within one half of its argument, and even when
    it is exactly one half away. *)
Lemma round_half_even_near (y : Q) :
  (y - (1 # 2) <= inject_Z (round_half_even y) <= y + (1 # 2))%Q
  ∧ ((inject_Z (round_half_even y) - y == 1 # 2
      ∨ y - inject_Z (round_half_even y) == 1 # 2)%Q →
     Z.even (round_half_even y) = true).
Proof.
  unfold round_half_even.
  pose proof (Qfloor_le y) as Hf. pose proof (Qlt_floor y) as Hc.
  set (f := Qfloor y) in *.
  assert (inject_Z (f + 1) == inject_Z f + 1)%Q as E1
    by (rewrite inject_Z_plus; reflexivity).
  rewrite E1 in Hc.
  destruct (Qcompare_spec (y - inject_Z f) (1 # 2)) as [E|E|E].
  - destruct (Z.even f) eqn:Ev.
    + split; [lra | done].
    + rewrite E1. split; [lra|]. intros _.
      rewrite Z.even_add, Ev. reflexivity.
  - split; [lra|]. intros [H|H]; lra.
  - rewrite E1. split; [lra|]. intros [H|H]; lra.
Qed.

Lemma round_half_even_le (y : Q) :
  (inject_Z (round_half_even y) <= y + (1 # 2))%Q.
Proof.
  unfold round_half_even.
  pose proof (Qfloor_le y) as Hf.
  set (f := Qfloor y) in *.
  assert (inject_Z (f + 1) == inject_Z f + 1)%Q as E1
    by (rewrite inject_Z_plus; reflexivity).
  destruct (Qcompare_spec (y - inject_Z f) (1 # 2)) as [E|E|E].
  - destruct (Z.even f); rewrite ?E1; lra.
  - lra.
  - rewrite E1. lra.
Qed.

(** A double below 1 is at most [1 - 2^-53]. *)
Lemma random_value_bound (r : Q) :
  random_value r → (0 <= r ∧ r * (9007199254740992 # 1) <= 9007199254740991 # 1)%Q.
Proof.
  intros (m & s & Hm & Hs & Hms & E).
  assert (0 < 2 ^ s) as Hpos by (apply Z.pow_pos_nonneg; lia).
  assert (0 < inject_Z (2 ^ s))%Q as HposQ by (rewrite <- (Zlt_Qlt 0); done).
  assert (r * inject_Z (2 ^ s) == inject_Z m)%Q as E'.
  { rewrite E. field. intros H. rewrite H in HposQ. by apply Qlt_irrefl in HposQ. }
  assert (0 <= inject_Z m)%Q as Hm0 by (rewrite <- (Zle_Qle 0); lia).
  assert (inject_Z m * (9007199254740992 # 1)
          <= (9007199254740991 # 1) * inject_Z (2 ^ s))%Q as Hkey.
  { change (9007199254740992 # 1)%Q with (inject_Z (2 ^ 53)).
    change (9007199254740991 # 1)%Q with (inject_Z (2 ^ 53 - 1)).
    rewrite <- !inject_Z_mult, <- Zle_Qle.
    change (2 ^ 53) with 9007199254740992 in *. nia. }
  set (D := inject_Z (2 ^ s)) in *. set (M := inject_Z m) in *.
  split.
  - apply (Qmult_le_r _ _ D); [done|]. nra.
  - apply (Qmult_le_r _ _ D); [done|]. nra.
Qed.

(** The rounded product stays below [n]: the floor is an index of an
    array of length [n]. *)
Lemma random_index_lt (r : Q) (n : nat) :
  random_value r → (0 < n)%nat → (random_index r n < n)%nat.
Proof.
  intros Hr Hn. apply random_value_bound in Hr as [Hr0 Hr1].
  unfold random_index.
  set (nq := inject_Z (Z.of_nat n)).
  assert (1 <= nq)%Q as Hnq.
  { unfold nq. change 1%Q with (inject_Z 1). rewrite <- Zle_Qle. lia. }
  set (x := (r * nq)%Q).
  assert (0 <= x)%Q as Hx0 by (unfold x; nra).
  assert (x * (9007199254740992 # 1) <= (9007199254740991 # 1) * nq)%Q as Hx1
    by (unfold x; nra).
  enough (Qfloor (round_double x) < Z.of_nat n) by lia.
  unfold round_double. destruct (Qle_bool x 0) eqn:E0.
  { change (Qfloor 0) with 0. lia. }
  assert (0 < x)%Q as Hxpos.
  { apply Qnot_le_lt. intros H. apply Qle_bool_iff in H. congruence. }
  set (e := Z.max (floor_log2 x - 52) (-1074)).
  set (y := (x / pow2 e)%Q).
  pose proof (pow2_pos e) as HP.
  pose proof (round_half_even_le y) as Hk.
  set (k := inject_Z (round_half_even y)) in *.
  assert (y * pow2 e == x)%Q as Hy.
  { unfold y. field. intros H. rewrite H in HP. by apply Qlt_irrefl in HP. }
  assert (pow2 e * (4503599627370496 # 1) < nq)%Q as He.
  { change (4503599627370496 # 1)%Q with (pow2 52). rewrite <- pow2_plus.
    destruct (Z.max_spec (floor_log2 x - 52) (-1074)) as [[_ E]|[_ E]];
      fold e in E; rewrite E.
    - eapply Qlt_le_trans; [|exact Hnq]. reflexivity.
    - replace (floor_log2 x - 52 + 52) with (floor_log2 x) by lia.
      eapply Qle_lt_trans; [by apply floor_log2_le|]. nra. }
  assert (k * pow2 e < nq)%Q as Hlt.
  { assert (k * pow2 e <= (y + (1 # 2)) * pow2 e)%Q as H1
      by (apply Qmult_le_compat_r; [done | by apply Qlt_le_weak]).
    nra. }
  rewrite Zlt_Qlt. eapply Qle_lt_trans; [apply Qfloor_le | exact Hlt].
Qed.

(** The rounding matters: [0.6666666666666666 * 3] is halfway between two
    doubles and becomes [2], where the exact product is below 2. *)
Lemma random_index_rounds :
  random_index (6004799503160661 # 9007199254740992) 3 = 2%nat
  ∧ Qfloor ((6004799503160661 # 9007199254740992) * 3) = 1.
Proof. split; reflexivity. Qed.

Lemma random_value_half : random_value (1 # 2).
Proof. exists 1, 1. repeat split; try lia; reflexivity. Defined.

Lemma random_value_zero : random_value 0.
Proof. exists 0, 0. repeat split; try lia; reflexivity. Defined.

(** ** Rules engine *)

Lemma board9b_spec (b : Board) : board9b b = true → board9 b.
Proof.
  unfold board9b, board9. rewrite andb_true_iff, forallb_forall.
  intros [Hl Hall]. apply bool_decide_eq_true in Hl. split; [done|].
  intros k Hk. specialize (Hall k). rewrite bool_decide_eq_true in Hall.
  apply Hall, list_elem_of_In, elem_of_seqZ. lia.
Qed.

Lemma board9_cases (b : Board) (k : Z) :
  board9 b → 0 <= k < 9 → free b k ∧ Js.get b k = Some None ∨ taken b k.
Proof.
  intros [_ Hall] Hk. destruct (Hall k Hk) as [[m|] E].
  - right. unfold taken. by rewrite E.
  - left. unfold free. by rewrite E.
Qed.

Lemma line_full_spec (b : Board) (l : Z * Z * Z) :
  line_full b l = true ↔ ∃ m, holds_line b l m.
Proof.
  destruct l as [[x y] z]. unfold line_full, holds_line; simpl. split.
  - rewrite !andb_true_iff, !bool_decide_eq_true. intros [[Ht Hy] Hz].
    destruct (Js.get b x) as [[m|]|] eqn:E; try discriminate.
    exists m. by rewrite <- Hy, <- Hz.
  - intros (m & -> & -> & ->). simpl. rewrite !bool_decide_eq_true_2; done.
Qed.

Lemma line_full_false (b : Board) (l : Z * Z * Z) :
  line_full b l = false ↔ ∀ m, ¬ holds_line b l m.
Proof.
  rewrite <- not_true_iff_false, line_full_spec. split.
  - intros H m Hm. apply H. by exists m.
  - intros H [m Hm]. by apply (H m).
Qed.

Lemma scan_lines_hit (b : Board) (ls : list (Z * Z * Z)) (i : nat) l m :
  ls !! i = Some l → holds_line b l m →
  (∀ (j : nat) l' m', (j < i)%nat → ls !! j = Some l' → ¬ holds_line b l' m') →
  scan_lines b ls = (Some m, line_cells l).
Proof.
  revert i. induction ls as [|l0 ls IH]; intros i Hi Hl Hbefore; [done|].
  destruct i as [|i]; simpl in *.
  - injection Hi as ->.
    assert (line_full b l = true) as -> by (apply line_full_spec; eauto).
    destruct Hl as [-> _]. done.
  - assert (line_full b l0 = false) as ->.
    { apply line_full_false. intros m'. apply (Hbefore 0%nat); [lia | done]. }
    apply (IH i); [done | done |].
    intros j l' m' Hj Hl'. apply (Hbefore (S j)); [lia | done].
Qed.

Lemma scan_lines_miss (b : Board) (ls : list (Z * Z * Z)) :
  (∀ l m, l ∈ ls → ¬ holds_line b l m) → scan_lines b ls = (None, []).
Proof.
  induction ls as [|l0 ls IH]; intros Hno; [done|]. simpl.
  assert (line_full b l0 = false) as ->.
  { apply line_full_false. intros m. apply Hno. left. }
  apply IH. intros l m Hin. apply Hno. by right.
Qed.

Lemma isDraw_full (b : Board) :
  board9 b → (∀ k, 0 <= k < 9 → taken b k) → isDraw b = true.
Proof.
  intros [Hlen _] Hall. unfold isDraw. apply every_spec.
  intros i v Hi Hv. apply bool_decide_eq_true. intros ->.
  rewrite Hlen in Hi. specialize (Hall i Hi). unfold taken in Hall.
  by rewrite Hv in Hall.
Qed.

Lemma isDraw_free (b : Board) (k : Z) :
  board9 b → 0 <= k < 9 → free b k → isDraw b = false.
Proof.
  intros Hb Hk Hfree. apply not_true_iff_false. intros Hd.
  unfold isDraw in Hd. rewrite every_spec in Hd.
  destruct (board9_cases b k Hb Hk) as [[_ E]|Ht].
  - destruct Hb as [Hlen _]. specialize (Hd k None). rewrite Hlen in Hd.
    specialize (Hd Hk E). by apply bool_decide_eq_true in Hd.
  - unfold free, taken in *. congruence.
Qed.

Lemma EMPTY_BOARD_get (k : Z) :
  Js.get EMPTY_BOARD k = if bool_decide (0 <= k < 9) then Some None else None.
Proof.
  case_bool_decide as Hk.
  - assert (k = 0 ∨ k = 1 ∨ k = 2 ∨ k = 3 ∨ k = 4 ∨ k = 5 ∨ k = 6 ∨ k = 7 ∨ k = 8)
      as Hc by lia.
    repeat (destruct Hc as [->|Hc]; [reflexivity|]). by subst.
  - unfold Js.get, EMPTY_BOARD, Js.fill, Js.new; simpl.
    change (BOARD_SIZE * BOARD_SIZE) with 9. simpl.
    repeat (rewrite lookup_insert_ne by lia). apply lookup_empty.
Qed.

Lemma EMPTY_BOARD_board9 : board9 EMPTY_BOARD.
Proof. apply board9b_spec. reflexivity. Qed.

Lemma EMPTY_BOARD_no_line : no_line EMPTY_BOARD.
Proof.
  intros l m _ [H _]. rewrite EMPTY_BOARD_get in H. by case_bool_decide.
Qed.

Lemma result_detect_win (cl st : Session) l m :
  first_line (board cl) l m → result (detectEffect cl st) = Win m (line_cells l).
Proof.
  intros (i & Hi & Hl & Hbefore). unfold detectEffect, calculateWinner.
  by rewrite (scan_lines_hit _ _ i l m).
Qed.

Lemma result_detect_none (cl st : Session) :
  no_line (board cl) →
  result (detectEffect cl st) = if isDraw (board cl) then Draw else InProgress.
Proof.
  intros Hno. unfold detectEffect, calculateWinner.
  rewrite scan_lines_miss by done. by destruct (isDraw (board cl)).
Qed.

Lemma result_detect (cl st : Session) :
  result (detectEffect cl st) = evaluate (board cl).
Proof.
  unfold evaluate, detectEffect; simpl.
  destruct (calculateWinner (board cl)) as [[w|] line]; [done|].
  by destruct (isDraw (board cl)).
Qed.

(** C2. For every board of 9 cells the evaluation (the win/draw detection
    effect, read the way the status bar reads it) gives [Win m line] for
    the first of the 8 lines, in the order rows, columns, diagonals, whose
    three squares all hold the marker [m]; when no line is held it gives
    [Draw] if the 9 squares are all taken and [InProgress] if one is free;
    the empty board gives [InProgress]. *)
Theorem C2_evaluate (b : Board) :
  board9 b →
  lines = rows_columns_diagonals
  ∧ (∀ l m, first_line b l m → evaluate b = Win m (line_cells l))
  ∧ (no_line b → (∀ k, 0 <= k < 9 → taken b k) → evaluate b = Draw)
  ∧ (no_line b → (∃ k, 0 <= k < 9 ∧ free b k) → evaluate b = InProgress)
  ∧ evaluate EMPTY_BOARD = InProgress.
Proof.
  intros Hb. unfold evaluate. split; [|split; [|split; [|split]]].
  - reflexivity.
  - intros l m Hl. by apply result_detect_win.
  - intros Hno Hall. rewrite result_detect_none by done. simpl.
    by rewrite isDraw_full.
  - intros Hno (k & Hk & Hfree). rewrite result_detect_none by done. simpl.
    by rewrite (isDraw_free _ k).
  - reflexivity.
Qed.

(** ** Computer move *)

Lemma find_lookup {A} (p : A → bool) (l : list A) :
  match List.find p l with
  | Some x =>
      ∃ i : nat, l !! i = Some x ∧ p x = true
        ∧ ∀ (j : nat) y, (j < i)%nat → l !! j = Some y → p y = false
  | None => ∀ y, y ∈ l → p y = false
  end.
Proof.
  induction l as [|a l IH]; simpl.
  - intros y Hy. by apply elem_of_nil in Hy.
  - destruct (p a) eqn:Ea.
    + exists 0%nat. repeat split; [done|]. intros j y Hj. lia.
    + destruct (List.find p l) as [x|].
      * destruct IH as (i & Hi & Hx & Hbefore). exists (S i).
        repeat split; [done | done |]. intros [|j] y Hj Hy; simpl in Hy.
        -- by injection Hy as <-.
        -- apply (Hbefore j); [lia | done].
      * intros y Hy. apply elem_of_cons in Hy as [->|Hy]; [done | by apply IH].
Qed.

Lemma find_seqZ_Some (p : Z → bool) (n j : Z) :
  List.find p (seqZ 0 n) = Some j →
  0 <= j < n ∧ p j = true ∧ ∀ k, 0 <= k < j → p k = false.
Proof.
  intros Hf. pose proof (find_lookup p (seqZ 0 n)) as H. rewrite Hf in H.
  destruct H as (i & Hi & Hp & Hbefore).
  apply lookup_seqZ in Hi as [-> Hi]. repeat split; [lia | lia | done |].
  intros k Hk. apply (Hbefore (Z.to_nat k)); [lia|].
  apply lookup_seqZ. lia.
Qed.

Lemma find_seqZ_None (p : Z → bool) (n : Z) :
  List.find p (seqZ 0 n) = None → ∀ k, 0 <= k < n → p k = false.
Proof.
  intros Hf k Hk. pose proof (find_lookup p (seqZ 0 n)) as H. rewrite Hf in H.
  apply H, elem_of_seqZ. lia.
Qed.

Lemma evaluate_win (b : Board) (who : Marker) :
  (∃ line, evaluate b = Win who line) ↔ (calculateWinner b).1 = Some who.
Proof.
  unfold evaluate, detectEffect; simpl.
  destruct (calculateWinner b) as [[w|] line]; simpl.
  - split; [intros [l [= ->]]; done | intros [= ->]; by eexists].
  - split; [|done]. intros [l Hl]. by destruct (isDraw b).
Qed.

Lemma completes_true (b : Board) (who : Marker) (i : Z) :
  completes b who i = true ↔ wins_at b who i.
Proof.
  unfold completes, wins_at, free.
  rewrite andb_true_iff, negb_true_iff, bool_decide_eq_true, evaluate_win.
  done.
Qed.

Lemma completes_false (b : Board) (who : Marker) (i : Z) :
  completes b who i = false ↔ ¬ wins_at b who i.
Proof. by rewrite <- not_true_iff_false, completes_true. Qed.

Lemma free_corners_spec (b : Board) (j : Z) :
  j ∈ free_corners b ↔ corner j ∧ free b j.
Proof.
  unfold free_corners, corner, free.
  rewrite list_elem_of_In, filter_In, negb_true_iff. simpl.
  intuition auto.
Qed.

Lemma get_map {A B} (f : A → Z → B) (a : Js.array A) (i : Z) :
  Js.get (Js.map f a) i
  = if bool_decide (0 <= i < Js.length a) then (λ v, f v i) <$> Js.get a i
    else None.
Proof.
  unfold Js.get, Js.map; simpl. rewrite map_lookup_imap.
  destruct (Js.props a !! i); simpl; by case_bool_decide.
Qed.

Lemma empties_spec (b : Board) (x : option Z) :
  x ∈ empties b
  ↔ ∃ i, x = Some i ∧ 0 <= i < Js.length b ∧ Js.get b i = Some None.
Proof.
  unfold empties, Js.filter.
  rewrite list_elem_of_In, filter_In, <- list_elem_of_In, list_elem_of_fmap.
  rewrite bool_decide_eq_true. split.
  - intros [([i y] & -> & Hin) Hx]. simpl in Hx.
    apply entries_spec in Hin as [Hi Hg]. simpl in Hi.
    rewrite get_map, bool_decide_eq_true_2 in Hg by done.
    destruct (Js.get b i) as [[m|]|] eqn:E; simpl in Hg; simplify_eq.
    exists i. done.
  - intros (i & -> & Hi & Hg). split; [|done].
    exists (i, Some i). split; [done|]. apply entries_spec. split; [done|].
    rewrite get_map, bool_decide_eq_true_2, Hg by done. done.
Qed.

Lemma random_pick {A} (r : Q) (l : list A) :
  random_value r → List.length l ≠ 0%nat →
  ∃ x, l !! random_index r (List.length l) = Some x ∧ x ∈ l.
Proof.
  intros H0 Hl.
  destruct (lookup_lt_is_Some_2 l (random_index r (List.length l))) as [x Hx].
  { apply random_index_lt; [done | lia]. }
  exists x. split; [done|]. by eapply list_elem_of_lookup_2.
Qed.

(** The branch [cpuMove] takes and what it returns there. *)
Lemma cpuMove_cases (r : Q) (b : Board) (own : Marker) :
  random_value r →
  (∃ j, cpuMove r b own = Some j ∧ first_win b own j)
  ∨ (no_win b own ∧ ∃ j, cpuMove r b own = Some j ∧ first_win b (other own) j)
  ∨ (no_win b own ∧ no_win b (other own) ∧ free b 4 ∧ cpuMove r b own = Some 4)
  ∨ (no_win b own ∧ no_win b (other own) ∧ taken b 4
     ∧ ∃ j, cpuMove r b own = Some j ∧ corner j ∧ free b j)
  ∨ (no_win b own ∧ no_win b (other own) ∧ taken b 4
     ∧ (∀ j, corner j → taken b j)
     ∧ ∃ j, cpuMove r b own = Some j
         ∧ 0 <= j < Js.length b ∧ Js.get b j = Some None)
  ∨ (no_win b own ∧ no_win b (other own) ∧ taken b 4
     ∧ (∀ j, corner j → taken b j)
     ∧ (∀ j, 0 <= j < Js.length b → Js.get b j ≠ Some None)
     ∧ cpuMove r b own = None).
Proof.
  intros H0. unfold cpuMove.
  replace (if decide (own = X) then O else X) with (other own)
    by (by destruct own).
  destruct (List.find (completes b own) (seqZ 0 9)) as [j|] eqn:F1.
  { left. exists j. split; [done|].
    apply find_seqZ_Some in F1 as (Hj & Hc & Hbefore).
    split; [done|]. split; [by apply completes_true|].
    intros k Hk. by apply completes_false, Hbefore. }
  right.
  assert (no_win b own) as N1.
  { intros k Hk. by apply completes_false, (find_seqZ_None _ _ F1). }
  destruct (List.find (completes b (other own)) (seqZ 0 9)) as [j|] eqn:F2.
  { left. split; [done|]. exists j. split; [done|].
    apply find_seqZ_Some in F2 as (Hj & Hc & Hbefore).
    split; [done|]. split; [by apply completes_true|].
    intros k Hk. by apply completes_false, Hbefore. }
  right.
  assert (no_win b (other own)) as N2.
  { intros k Hk. by apply completes_false, (find_seqZ_None _ _ F2). }
  destruct (truthy (Js.get b 4)) eqn:C; simpl.
  2:{ left. done. }
  right. case_bool_decide as Hc.
  { left. destruct (random_pick r (free_corners b) H0 Hc) as (j & -> & Hin).
    apply free_corners_spec in Hin as [Hj Hf].
    do 3 (split; [done|]). exists j. done. }
  right.
  assert (∀ j, corner j → taken b j) as Hcorners.
  { intros j Hj. unfold taken. destruct (truthy (Js.get b j)) eqn:E; [done|].
    assert (j ∈ free_corners b) as Hin by (by apply free_corners_spec).
    destruct (free_corners b); [by apply elem_of_nil in Hin | simpl in Hc; lia]. }
  case_bool_decide as He.
  - left. destruct (random_pick r (empties b) H0 He) as (x & -> & Hin).
    apply empties_spec in Hin as (j & -> & Hj & Hg). simpl.
    do 4 (split; [done|]). exists j. done.
  - right. do 4 (split; [done|]). split; [|done].
    intros j Hj Hg.
    assert (Some j ∈ empties b) as Hin by (apply empties_spec; eauto).
    destruct (empties b); [by apply elem_of_nil in Hin | simpl in He; lia].
Qed.

Lemma first_win_free (b : Board) (who : Marker) (j : Z) :
  first_win b who j → 0 <= j < 9 ∧ free b j.
Proof. intros (Hj & [Hf _] & _). done. Qed.

Lemma corner_range (j : Z) : corner j → 0 <= j < 9.
Proof. unfold corner. lia. Qed.

Lemma free_not_taken (b : Board) (k : Z) : free b k → taken b k → False.
Proof. unfold free, taken. congruence. Qed.

Lemma null_free (b : Board) (k : Z) : Js.get b k = Some None → free b k.
Proof. unfold free. by intros ->. Qed.

Ltac cpu_cases r b own H0 :=
  destruct (cpuMove_cases r b own H0)
    as [(j & Hm & Hw)
       |[(N1 & j & Hm & Hw)
       |[(N1 & N2 & C4 & Hm)
       |[(N1 & N2 & C4 & j & Hm & Hc & Hf)
       |[(N1 & N2 & C4 & Hcs & j & Hm & Hj & Hg)
       |(N1 & N2 & C4 & Hcs & Hfull & Hm)]]]]].

(** The move is a free square of the board. *)
Lemma cpuMove_Some_free (r : Q) (b : Board) (own : Marker) (i : Z) :
  random_value r → board9 b →
  cpuMove r b own = Some i → 0 <= i < 9 ∧ free b i.
Proof.
  intros H0 [Hlen Hall] Hi.
  cpu_cases r b own H0; rewrite Hm in Hi; simplify_eq.
  - by apply (first_win_free b own).
  - by apply (first_win_free b (other own)).
  - split; [lia | done].
  - split; [by apply corner_range | done].
  - split; [lia | by apply null_free].
Qed.

(** With a free square there is a move. *)
Lemma cpuMove_is_Some (r : Q) (b : Board) (own : Marker) :
  random_value r → board9 b →
  (∃ k, 0 <= k < 9 ∧ free b k) → ∃ i, cpuMove r b own = Some i.
Proof.
  intros H0 Hb (k & Hk & Hfree).
  cpu_cases r b own H0; try (by eexists).
  exfalso. destruct (board9_cases b k Hb Hk) as [[_ E]|Ht].
  - destruct Hb as [Hlen _]. apply (Hfull k); [lia | done].
  - by apply (free_not_taken b k).
Qed.

(** C5. [cpuMove] goes through its tiers in order: the smallest free
    square that wins for the player, even when a block exists as well;
    failing that the smallest free square at which the opponent would win;
    failing that square 4 if it is free; failing that a free corner among
    0, 2, 6, 8 if there is one; failing that some free square. *)
Theorem C5_cpuMove_priority (r : Q) (b : Board) (own : Marker) :
  random_value r → board9 b →
  ((∃ i, 0 <= i < 9 ∧ wins_at b own i) →
     ∃ j, cpuMove r b own = Some j ∧ first_win b own j)
  ∧ (no_win b own → (∃ i, 0 <= i < 9 ∧ wins_at b (other own) i) →
     ∃ j, cpuMove r b own = Some j ∧ first_win b (other own) j)
  ∧ (no_win b own → no_win b (other own) → free b 4 →
     cpuMove r b own = Some 4)
  ∧ (no_win b own → no_win b (other own) → taken b 4 →
     (∃ c, corner c ∧ free b c) →
     ∃ j, cpuMove r b own = Some j ∧ corner j ∧ free b j)
  ∧ (no_win b own → no_win b (other own) → taken b 4 →
     (∀ c, corner c → taken b c) → (∃ k, 0 <= k < 9 ∧ free b k) →
     ∃ j, cpuMove r b own = Some j ∧ 0 <= j < 9 ∧ free b j).
Proof.
  intros H0 Hb. split; [|split; [|split; [|split]]].
  - intros (i & Hi & Hwin).
    cpu_cases r b own H0; try (by destruct (N1 i Hi)).
    by exists j.
  - intros M1 (i & Hi & Hwin).
    cpu_cases r b own H0; try (by destruct (N2 i Hi)).
    + destruct Hw as (Hj & Hw & _). by destruct (M1 j Hj).
    + by exists j.
  - intros M1 M2 Hfree.
    cpu_cases r b own H0; try done; try (by destruct (free_not_taken b 4)).
    + destruct Hw as (Hj & Hw & _). by destruct (M1 j Hj).
    + destruct Hw as (Hj & Hw & _). by destruct (M2 j Hj).
  - intros M1 M2 Htaken (c & Hc' & Hfree).
    cpu_cases r b own H0; try (by destruct (free_not_taken b 4));
      try (by destruct (free_not_taken b c Hfree (Hcs c Hc'))).
    + destruct Hw as (Hj & Hw & _). by destruct (M1 j Hj).
    + destruct Hw as (Hj & Hw & _). by destruct (M2 j Hj).
    + by exists j.
  - intros M1 M2 Htaken Hcorners Hex.
    destruct (cpuMove_is_Some r b own H0 Hb Hex) as [j Hj].
    exists j. split; [done|]. by apply (cpuMove_Some_free r b own).
Qed.

(** C6. On a board of 9 cells [cpuMove] returns [null] exactly when the
    board is full: with a free square it returns an index, with all 9
    squares taken it returns [null]. *)
Theorem C6_cpuMove_none_iff_full (r : Q) (b : Board) (own : Marker) :
  random_value r → board9 b →
  (cpuMove r b own = None ↔ ∀ k, 0 <= k < 9 → taken b k)
  ∧ ((∃ k, 0 <= k < 9 ∧ free b k) → ∃ i, cpuMove r b own = Some i).
Proof.
  intros H0 Hb. split; [split|].
  - intros Hnone k Hk.
    destruct (board9_cases b k Hb Hk) as [[Hfree _]|Ht]; [|done].
    destruct (cpuMove_is_Some r b own H0 Hb) as [i Hi]; [by exists k|].
    congruence.
  - intros Hall. destruct (cpuMove r b own) as [i|] eqn:E; [|done].
    apply (cpuMove_Some_free r b own i H0 Hb) in E as [Hi Hfree].
    by destruct (free_not_taken b i Hfree (Hall i Hi)).
  - by apply cpuMove_is_Some.
Qed.

(** C10. On a board of 9 cells with a free square, for either player, the
    move [cpuMove] selects is an index between 0 and 8 whose square is
    empty on that board. *)
Theorem C10_cpuMove_in_range_and_empty (r : Q) (b : Board) (own : Marker) :
  random_value r → board9 b →
  (∃ k, 0 <= k < 9 ∧ free b k) →
  ∃ i, cpuMove r b own = Some i ∧ 0 <= i <= 8 ∧ Js.get b i = Some None.
Proof.
  intros H0 Hb Hex.
  destruct (cpuMove_is_Some r b own H0 Hb Hex) as [i Hi].
  exists i. split; [done|].
  destruct (cpuMove_Some_free r b own i H0 Hb Hi) as [Hr Hfree].
  split; [lia|].
  destruct (board9_cases b i Hb) as [[_ E]|Ht]; [lia | done |].
  by destruct (free_not_taken b i).
Qed.

(** ** The renders after an event *)

Lemma calculateWinner_EMPTY : calculateWinner EMPTY_BOARD = (None, []).
Proof. reflexivity. Qed.

Lemma isDraw_EMPTY : isDraw EMPTY_BOARD = false.
Proof. reflexivity. Qed.

Lemma detectEffect_mode (cl st : Session) : mode (detectEffect cl st) = mode st.
Proof.
  unfold detectEffect. destruct (calculateWinner (board cl)) as [[w|] line];
    [done|]. by destruct (isDraw (board cl)).
Qed.

Lemma detectEffect_board (cl st : Session) : board (detectEffect cl st) = board st.
Proof.
  unfold detectEffect. destruct (calculateWinner (board cl)) as [[w|] line];
    [done|]. by destruct (isDraw (board cl)).
Qed.

Lemma detectEffect_xIsNext (cl st : Session) :
  xIsNext (detectEffect cl st) = xIsNext st.
Proof.
  unfold detectEffect. destruct (calculateWinner (board cl)) as [[w|] line];
    [done|]. by destruct (isDraw (board cl)).
Qed.

(** A session that was just reset is what the detection effect derives
    from its board. *)
Lemma detectEffect_reset (st : Session) :
  detectEffect (resetGame st) (resetGame st) = resetGame st.
Proof.
  unfold detectEffect. change (board (resetGame st)) with EMPTY_BOARD.
  rewrite calculateWinner_EMPTY, isDraw_EMPTY. reflexivity.
Qed.

Lemma resetGame_spec (s : Session) : resetGame s = spec_reset None s.
Proof. reflexivity. Qed.

Lemma commit_session (r : Q) (prev cl : Session) (pending : list Timer) :
  (commit r prev cl pending).1 = commitState prev cl.
Proof. reflexivity. Qed.

Lemma commitState_same_mode (prev cl : Session) :
  mode prev = mode cl →
  commitState prev cl
  = if bool_decide (board prev ≠ board cl) then detectEffect cl cl else cl.
Proof.
  intros Hm. unfold commitState.
  by rewrite (bool_decide_eq_false_2 (mode prev ≠ mode cl)) by auto.
Qed.

Lemma commitState_new_mode (prev cl : Session) :
  mode prev ≠ mode cl → commitState prev cl = spec_reset (Some (mode cl)) cl.
Proof.
  intros Hm. unfold commitState.
  rewrite (bool_decide_eq_true_2 (mode prev ≠ mode cl)) by done.
  unfold modeEffect, resetGame, spec_reset; simpl.
  case_bool_decide; [|done].
  unfold setDraw, setWinningLine, setWinner, setXIsNext, setBoard; simpl.
  by rewrite detectEffect_mode.
Qed.

Lemma commitState_mode (prev cl : Session) : mode (commitState prev cl) = mode cl.
Proof.
  destruct (decide (mode prev = mode cl)) as [E|N].
  - rewrite commitState_same_mode by done.
    case_bool_decide; [apply detectEffect_mode | done].
  - by rewrite commitState_new_mode.
Qed.

(** A second commit changes nothing. *)
Lemma commitState_idem (prev cl : Session) :
  commitState cl (commitState prev cl) = commitState prev cl.
Proof.
  rewrite (commitState_same_mode cl) by (by rewrite commitState_mode).
  case_bool_decide as Hb; [|done].
  destruct (decide (mode prev = mode cl)) as [E|N].
  - rewrite commitState_same_mode in Hb |- * by done.
    case_bool_decide; [|done]. by rewrite detectEffect_board in Hb.
  - rewrite commitState_new_mode by done.
    apply (detectEffect_reset (setMode (mode cl) cl)).
Qed.

(** The renders come to rest within the fuel, in the state after the
    first commit. *)
Lemma renderLoop_settles (r : Q) (prev cl : Session) (pending : list Timer) :
  ∃ pending', renderLoop 3 r prev cl pending = Some (commitState prev cl, pending').
Proof.
  cbn [renderLoop]. destruct (commit r prev cl pending) as [st p1] eqn:E1.
  assert (st = commitState prev cl) as ->
    by exact (eq_trans (f_equal fst (eq_sym E1)) (commit_session r prev cl pending)).
  case_bool_decide as H1.
  { exists p1. by rewrite H1. }
  destruct (commit r cl (commitState prev cl) p1) as [st2 p2] eqn:E2.
  assert (st2 = commitState prev cl) as ->.
  { rewrite <- (commitState_idem prev cl).
    exact (eq_trans (f_equal fst (eq_sym E2))
             (commit_session r cl (commitState prev cl) p1)). }
  rewrite bool_decide_eq_true_2 by done. by exists p2.
Qed.

Lemma settle_session (r : Q) (prev cl : Session) (pending : list Timer) :
  ∃ pending', settle r prev cl pending = Some (MkApp (commitState prev cl) pending').
Proof.
  unfold settle. destruct (renderLoop_settles r prev cl pending) as [p' ->].
  by exists p'.
Qed.

(** No setter call, no render: the application is as before. *)
Lemma settle_unchanged (r : Q) (s : Session) (pending : list Timer) :
  settle r s s pending = Some (MkApp s pending).
Proof.
  unfold settle, renderLoop, commit, commitState, commitTimers.
  rewrite !(bool_decide_eq_false_2 (_ ≠ _)) by auto. simpl.
  by rewrite bool_decide_eq_true_2.
Qed.

(** Every event is handled: the model never runs out of fuel. *)
Lemma step_total (r : Q) (e : Event) (a : App) : is_Some (step r e a).
Proof.
  destruct e as [index| |m|]; simpl.
  - destruct (settle_session r (session a)
                (handlePlay (session a) index (session a)) (timers a)) as [p ->].
    done.
  - destruct (settle_session r (session a) (resetGame (session a)) (timers a))
      as [p ->]. done.
  - destruct (settle_session r (session a) (setMode m (session a)) (timers a))
      as [p ->]. done.
  - destruct (timers a) as [|t rest]; [done|].
    destruct (settle_session r (session a)
                (handlePlay (timer_closure t) (timer_move t) (session a)) rest)
      as [p ->]. done.
Qed.

Lemma mount_start (r : Q) : mount r = Some start.
Proof. reflexivity. Qed.

(** ** Witnesses for the rules engine and the computer move *)

Lemma C2_evaluate_witness :
  board9 board_diagonal ∧ evaluate board_diagonal = Win X [0; 4; 8].
Proof.
  assert (Hb : board9 board_diagonal) by (apply board9b_spec; reflexivity).
  split; [exact Hb|].
  apply (proj1 (proj2 (C2_evaluate board_diagonal Hb)) (0, 4, 8) X).
  exists 6%nat. split; [reflexivity|]. split; [by repeat split|].
  intros j l' m' Hj Hl' (E1 & E2 & E3).
  do 6 (destruct j as [|j];
        [injection Hl' as <-; vm_compute in E1, E2, E3; destruct m'; congruence|]).
  lia.
Defined.

Lemma C5_cpuMove_priority_witness :
  ∃ j, cpuMove (1 # 2) board_win_or_block O = Some j
       ∧ first_win board_win_or_block O j.
Proof.
  assert (Hb : board9 board_win_or_block) by (apply board9b_spec; reflexivity).
  apply (proj1 (C5_cpuMove_priority (1 # 2) board_win_or_block O
                  random_value_half Hb)).
  exists 2. split; [lia|]. split; [reflexivity|].
  exists [0; 1; 2]. reflexivity.
Defined.

Lemma C6_cpuMove_none_iff_full_witness :
  ∃ i, cpuMove (1 # 2) board_win_or_block X = Some i.
Proof.
  assert (Hb : board9 board_win_or_block) by (apply board9b_spec; reflexivity).
  apply (proj2 (C6_cpuMove_none_iff_full (1 # 2) board_win_or_block X
                  random_value_half Hb)).
  exists 8. split; [lia | reflexivity].
Defined.

Lemma C10_cpuMove_in_range_and_empty_witness :
  ∃ i, cpuMove (1 # 2) board_x0_o4 O = Some i
       ∧ 0 <= i <= 8 ∧ Js.get board_x0_o4 i = Some None.
Proof.
  assert (Hb : board9 board_x0_o4) by (apply board9b_spec; reflexivity).
  apply (C10_cpuMove_in_range_and_empty (1 # 2) board_x0_o4 O
           random_value_half Hb).
  exists 1. split; [lia | reflexivity].
Defined.

(** ** The controller *)

Lemma get_of_list {A} (l : list A) (k : Z) :
  Js.get (Js.of_list l) k = if bool_decide (0 <= k) then l !! Z.to_nat k else None.
Proof.
  unfold Js.get, Js.of_list; simpl. rewrite lookup_map_seqZ.
  case_bool_decide.
  - by rewrite option_guard_True, Z.sub_0_r.
  - by rewrite option_guard_False.
Qed.

Lemma result_not_InProgress (s : Session) :
  result s ≠ InProgress ↔ winner s ≠ None ∨ draw s = true.
Proof.
  unfold result. destruct (winner s) as [w|], (draw s); split; intros H;
    try done; try (by left); try (by right).
  by destruct H.
Qed.

Lemma result_InProgress (s : Session) :
  result s = InProgress ↔ winner s = None ∧ draw s = false.
Proof.
  unfold result. destruct (winner s) as [w|], (draw s); split; intros H;
    try done; by destruct H.
Qed.

(** [handlePlay] returns early: no setter is called. *)
Lemma handlePlay_rejected (cl : Session) (index : Z) (st : Session) :
  result cl ≠ InProgress ∨ taken (board cl) index → handlePlay cl index st = st.
Proof.
  intros H. unfold handlePlay.
  destruct H as [H|H].
  - apply result_not_InProgress in H as [H| ->].
    + rewrite (bool_decide_eq_true_2 _ H). by rewrite orb_true_r.
    + by rewrite orb_true_r.
  - unfold taken in H. by rewrite H.
Qed.

(** [handlePlay] goes through: the two setter calls. *)
Lemma handlePlay_accepted (cl : Session) (index : Z) (st : Session) :
  result cl = InProgress → free (board cl) index →
  handlePlay cl index st
  = setXIsNext (negb (xIsNext cl))
      (setBoard (Js.set (Js.slice (board cl)) index (Some (current cl))) st).
Proof.
  intros Hr Hf. apply result_InProgress in Hr as [Hw Hd].
  unfold handlePlay, free in *. rewrite Hf, Hd.
  by rewrite bool_decide_eq_false_2 by (by intros H; apply H).
Qed.

(** A marked copy differs from the board it was copied from. *)
Lemma place_changes (b : Board) (index : Z) (m : Marker) :
  free b index → b ≠ Js.set (Js.slice b) index (Some m).
Proof.
  intros Hf E. unfold free in Hf. rewrite E, get_set_eq in Hf. done.
Qed.

(** The squares the page leaves enabled are the plays [handlePlay]
    accepts, less those on the computer's turn: that turn is guarded by
    the page, not by [handlePlay]. *)
Lemma enabled_square (s : Session) (idx : Z) :
  square_disabled s idx = false
  ↔ result s = InProgress ∧ free (board s) idx
    ∧ ¬ (mode s = ModeCpu ∧ xIsNext s = false).
Proof.
  unfold square_disabled, free. rewrite result_InProgress.
  rewrite !orb_false_iff, andb_false_iff, negb_false_iff.
  rewrite !bool_decide_eq_false. split.
  - intros [[[Hb Hw] Hd] Ht]. repeat split; [|done|done|].
    + by destruct (winner s) as [w|]; [destruct Hw|].
    + intros [Hm Hx]. destruct Ht as [Ht|Ht]; congruence.
  - intros ((Hw & Hd) & Hb & Ht). repeat split; [done|congruence|done|].
    destruct (decide (mode s = ModeCpu)) as [Hm|Hm]; [|by left].
    right. destruct (xIsNext s); [done|]. by destruct Ht.
Qed.

(** The corrected reading of C1: a [handlePlay] that is not turned away
    changes the state (it flips [xIsNext]), whatever the index and the
    mode. *)
Lemma play_not_rejected (r : Q) (a : App) (index : Z) :
  result (session a) = InProgress → free (board (session a)) index →
  step r (Play index) a ≠ Some a.
Proof.
  intros Hr Hf. simpl. rewrite handlePlay_accepted by done.
  destruct (settle_session r (session a)
              (setXIsNext (negb (xIsNext (session a)))
                 (setBoard (Js.set (Js.slice (board (session a))) index
                              (Some (current (session a)))) (session a)))
              (timers a)) as [p ->].
  intros [= E]. apply (f_equal (λ x, xIsNext (session x))) in E. simpl in E.
  rewrite commitState_same_mode in E by done.
  case_bool_decide; [rewrite detectEffect_xIsNext in E|]; simpl in E;
    by destruct (xIsNext (session a)).
Qed.

(** C1 (amended). [play(index)], the [handlePlay] of the current render,
    is turned away with no change to the board, to any other part of the
    session or to the pending timers whenever the game result is not
    [InProgress] or the square at [index] is already taken. *)
Theorem C1_play_rejected (r : Q) (a : App) (index : Z) :
  result (session a) ≠ InProgress ∨ taken (board (session a)) index →
  step r (Play index) a = Some a.
Proof.
  intros H. simpl. rewrite handlePlay_rejected by done.
  rewrite settle_unchanged. by destruct a.
Qed.

Lemma C1_play_rejected_witness :
  result (session app_top_row) ≠ InProgress
  ∧ step 0%Q (Play 3) app_top_row = Some app_top_row.
Proof.
  assert (H : result (session app_top_row) ≠ InProgress) by discriminate.
  split; [exact H|].
  apply (C1_play_rejected 0%Q app_top_row 3). left. exact H.
Defined.

(** C1 as stated fails: an index outside 0..8 is played (the array grows
    to hold square 9), and so is a move made on the computer's turn. *)
Lemma C1_counterexample :
  (¬ (0 <= 9 <= 8)
   ∧ ∃ a', step 0%Q (Play 9) start = Some a'
       ∧ Js.get (board (session a')) 9 = Some (Some X)
       ∧ Js.length (board (session a')) = 10
       ∧ current (session a') = O)
  ∧ (mode (session app_cpu_x0) = ModeCpu
     ∧ current (session app_cpu_x0) = O
     ∧ run 0%Q [SetMode ModeCpu; Play 0] start = Some app_cpu_x0
     ∧ ∃ a', step 0%Q (Play 1) app_cpu_x0 = Some a'
         ∧ Js.get (board (session a')) 1 = Some (Some O)
         ∧ current (session a') = X).
Proof.
  split.
  - split; [lia|]. eexists. split; [by vm_compute|]. by vm_compute.
  - do 3 (split; [by vm_compute|]).
    eexists. split; [by vm_compute|]. by vm_compute.
Qed.

(** A timeout started by the computer-move effect always plays when it
    expires, whatever happened since: the tests of [handlePlay] read the
    render that started it, and there they pass.  It stores the board of
    that render with O at the chosen square and hands the turn to X. *)
Lemma timeout_always_plays (r : Q) (cl : Session) (pending : list Timer)
    (t : Timer) :
  random_value r → board9 (board cl) →
  t ∈ cpuEffect r cl pending →
  t ∈ pending
  ∨ ∀ st, handlePlay (timer_closure t) (timer_move t) st
          = setXIsNext true
              (setBoard (Js.set (Js.slice (board cl)) (timer_move t) (Some O)) st).
Proof.
  intros H0 Hb. unfold cpuEffect.
  destruct (bool_decide (mode cl ≠ ModeCpu)); [by left|]. simpl.
  destruct (winner cl) as [w|] eqn:Hw.
  { rewrite bool_decide_eq_true_2 by done. by left. }
  rewrite bool_decide_eq_false_2 by (by intros H; apply H). simpl.
  destruct (draw cl) eqn:Hd; [by left|].
  destruct (xIsNext cl) eqn:Hx; [by left|]. simpl.
  destruct (cpuMove r (board cl) O) as [mv|] eqn:Hmv; [|by left].
  intros Hin. apply elem_of_app in Hin as [Hin|Hin]; [by left|].
  apply list_elem_of_singleton in Hin as ->. right. intros st. simpl.
  apply (cpuMove_Some_free r (board cl) O mv H0 Hb) in Hmv as [_ Hfree].
  rewrite handlePlay_accepted; [|by apply result_InProgress | done].
  unfold current. by rewrite Hx.
Qed.

(** C3 (what the code does). The timeout of the computer move is never
    cleared and calls the [handlePlay] of the render that started it.
    Against the computer, after [play(0)] the move to square 4 is pending;
    a reset empties the board and leaves the timeout running; when it
    expires it puts back the board of before the reset with O added at
    square 4.  The same happens after a change of mode, and a change to
    the computer mode on O's turn starts such a timeout itself, in the
    commit that resets the game. *)
Theorem C3_stale_move_after_reset (r : Q) :
  run r [SetMode ModeCpu; Play 0] start = Some app_cpu_x0
  ∧ step r Reset app_cpu_x0
    = Some (MkApp (MkSession ModeCpu EMPTY_BOARD true None [] false)
              (timers app_cpu_x0))
  ∧ run r [Reset; Fire] app_cpu_x0
    = Some (MkApp (MkSession ModeCpu board_x0_o4 true None [] false) [])
  ∧ run r [SetMode Mode2p; Fire] app_cpu_x0
    = Some (MkApp (MkSession Mode2p board_x0_o4 true None [] false) [])
  ∧ run r [Play 0; SetMode ModeCpu] start
    = Some (MkApp (MkSession ModeCpu EMPTY_BOARD true None [] false)
              (timers app_cpu_x0))
  ∧ run r [Play 0; SetMode ModeCpu; Fire] start
    = Some (MkApp (MkSession ModeCpu board_x0_o4 true None [] false) []).
Proof. repeat split; by vm_compute. Qed.

(** After X has won against the computer the pending computer move is
    still played, and here it takes the game: the detection effect finds
    O's row first. *)
Lemma computer_moves_after_win :
  ∃ a a',
    run 0%Q [SetMode ModeCpu; Play 0; Fire; Play 8; Fire; Play 6; Fire; Play 7]
      start = Some a
    ∧ result (session a) = Win X [6; 7; 8]
    ∧ step 0%Q Fire a = Some a'
    ∧ result (session a') = Win O [3; 4; 5].
Proof. do 2 eexists. split; [by vm_compute|]. by vm_compute. Qed.

(** C4 (amended). An accepted [play(index)] puts the current marker at
    [index], the game result is the evaluation of the resulting board, and
    the current marker is flipped in every case, also when the move wins
    or draws. *)
Theorem C4_play_accepted (r : Q) (a : App) (index : Z) :
  result (session a) = InProgress → free (board (session a)) index →
  ∃ a', step r (Play index) a = Some a'
    ∧ board (session a')
      = Js.set (Js.slice (board (session a))) index (Some (current (session a)))
    ∧ Js.get (board (session a')) index = Some (Some (current (session a)))
    ∧ result (session a') = evaluate (board (session a'))
    ∧ current (session a') = other (current (session a)).
Proof.
  intros Hr Hf. simpl. rewrite handlePlay_accepted by done.
  set (squares := Js.set (Js.slice (board (session a))) index
                    (Some (current (session a)))).
  set (s1 := setXIsNext (negb (xIsNext (session a))) (setBoard squares (session a))).
  destruct (settle_session r (session a) s1 (timers a)) as [p ->].
  eexists. split; [done|]. simpl.
  rewrite commitState_same_mode by done.
  rewrite bool_decide_eq_true_2 by (by apply place_changes).
  rewrite detectEffect_board, result_detect. simpl.
  split; [done|]. split; [apply get_set_eq|]. split; [done|].
  unfold current. rewrite detectEffect_xIsNext. simpl.
  by destruct (xIsNext (session a)).
Qed.

Lemma C4_play_accepted_witness :
  ∃ a', step 0%Q (Play 2) app_two_each = Some a'
    ∧ board (session a')
      = Js.set (Js.slice (board (session app_two_each))) 2
          (Some (current (session app_two_each)))
    ∧ Js.get (board (session a')) 2 = Some (Some (current (session app_two_each)))
    ∧ result (session a') = evaluate (board (session a'))
    ∧ current (session a') = other (current (session app_two_each)).
Proof.
  apply (C4_play_accepted 0%Q app_two_each 2); reflexivity.
Defined.

(** C4 as stated fails: the move that wins the game flips the current
    marker all the same. *)
Lemma C4_counterexample :
  run 0%Q [Play 0; Play 4; Play 1; Play 5] start = Some app_two_each
  ∧ current (session app_two_each) = X
  ∧ step 0%Q (Play 2) app_two_each = Some app_top_row
  ∧ result (session app_top_row) = Win X [0; 1; 2]
  ∧ current (session app_top_row) = O.
Proof. repeat split; by vm_compute. Qed.

(** C7. From every state of the application a reset goes through and
    leaves the board all empty, X to move and the game in progress; the
    mode is the one it was. *)
Theorem C7_reset (r : Q) (a : App) :
  ∃ a', step r Reset a = Some a'
    ∧ board (session a') = EMPTY_BOARD
    ∧ (∀ k, 0 <= k < 9 → Js.get (board (session a')) k = Some None)
    ∧ current (session a') = X
    ∧ result (session a') = InProgress
    ∧ mode (session a') = mode (session a)
    ∧ session a' = spec_reset None (session a).
Proof.
  simpl.
  destruct (settle_session r (session a) (resetGame (session a)) (timers a))
    as [p ->].
  eexists. split; [done|]. simpl.
  assert (commitState (session a) (resetGame (session a)) = resetGame (session a))
    as ->.
  { rewrite commitState_same_mode by done.
    case_bool_decide; [apply detectEffect_reset | done]. }
  split; [done|]. split; [|done].
  intros k Hk. simpl. rewrite EMPTY_BOARD_get.
  by rewrite bool_decide_eq_true_2.
Qed.

(** With the mode it already has, [setMode] changes nothing. *)
Lemma setMode_same (r : Q) (a : App) :
  step r (SetMode (mode (session a))) a = Some a.
Proof.
  simpl. replace (setMode (mode (session a)) (session a)) with (session a)
    by (by destruct a as [[]]).
  rewrite settle_unchanged. by destruct a.
Qed.

(** C9. From a fresh two-player session the plays 0, 4, 1, 5, 2 leave X on
    the squares 0, 1, 2 and nowhere else, with the result a win of X on the
    line 0, 1, 2; a play of 3 after that changes nothing. *)
Theorem C9_top_row_scenario (r : Q) :
  mode (session start) = Mode2p
  ∧ board (session start) = EMPTY_BOARD
  ∧ run r [Play 0; Play 4; Play 1; Play 5; Play 2] start = Some app_top_row
  ∧ (∀ k, Js.get (board (session app_top_row)) k = Some (Some X)
          ↔ k = 0 ∨ k = 1 ∨ k = 2)
  ∧ result (session app_top_row) = Win X [0; 1; 2]
  ∧ step r (Play 3) app_top_row = Some app_top_row.
Proof.
  do 2 (split; [reflexivity|]). split; [by vm_compute|]. split; [|split].
  - intros k. simpl. unfold board_top_row. rewrite get_of_list.
    case_bool_decide as Hk.
    + split.
      * intros H.
        destruct (Z.to_nat k) as [|[|[|[|[|[|[|[|[|n]]]]]]]]] eqn:E;
          simpl in H; try discriminate; lia.
      * intros [->|[->| ->]]; reflexivity.
    + split; [done | lia].
  - reflexivity.
  - by vm_compute.
Qed.

(** * Further properties of the code *)

(** ** [calculateWinner], read backwards *)

Lemma scan_lines_sound (b : Board) (ls : list (Z * Z * Z)) :
  match scan_lines b ls with
  | (Some m, line) =>
      ∃ (i : nat) l,
        ls !! i = Some l ∧ holds_line b l m ∧ line = line_cells l
        ∧ ∀ (j : nat) l' m',
            (j < i)%nat → ls !! j = Some l' → ¬ holds_line b l' m'
  | (None, line) => line = [] ∧ ∀ l m, l ∈ ls → ¬ holds_line b l m
  end.
Proof.
  induction ls as [|l0 ls IH]; simpl.
  - split; [done|]. intros l m Hin. by apply elem_of_nil in Hin.
  - destruct (line_full b l0) eqn:E.
    + apply line_full_spec in E as [m Hm].
      pose proof Hm as (E1 & _). rewrite E1. simpl.
      exists 0%nat, l0. repeat split; try done; try apply Hm.
      intros j l' m' Hj. lia.
    + destruct (scan_lines b ls) as [[m|] line].
      * destruct IH as (i & l & Hi & Hl & Hline & Hbefore).
        exists (S i), l. repeat split; try done; try apply Hl.
        intros [|j] l' m' Hj Hl'; simpl in Hl'.
        -- injection Hl' as <-. by apply line_full_false.
        -- apply (Hbefore j); [lia | done].
      * destruct IH as [-> IH]. split; [done|].
        intros l m Hin. apply elem_of_cons in Hin as [->|Hin]; [|by apply IH].
        by apply line_full_false.
Qed.

(** X1. Whatever array it is given, [calculateWinner] answers [[m, line]]
    only when [line] is the first of the 8 lines whose three squares all
    hold [m], and [[null, []]] only when no line is held. *)
Theorem calculateWinner_sound (b : Board) :
  match calculateWinner b with
  | (Some m, line) => ∃ l, first_line b l m ∧ line = line_cells l
  | (None, line) => no_line b ∧ line = []
  end.
Proof.
  unfold calculateWinner. pose proof (scan_lines_sound b lines) as H.
  destruct (scan_lines b lines) as [[m|] line].
  - destruct H as (i & l & Hi & Hl & Hline & Hbefore).
    exists l. split; [|done]. by exists i.
  - destruct H as [-> H]. done.
Qed.

(** ** The session at rest shows its board *)

Lemma shows_board_detect (s : Session) :
  shows_board s ↔ detectEffect s s = s.
Proof.
  unfold shows_board, detectEffect.
  destruct s as [md b x w wl d]; simpl.
  destruct (calculateWinner b) as [[m|] line]; simpl.
  - unfold setDraw, setWinningLine, setWinner; simpl. split.
    + by intros (-> & -> & ->).
    + by intros [= <- <- <-].
  - destruct (isDraw b); unfold setDraw, setWinningLine, setWinner; simpl.
    + split; [by intros (-> & -> & _) | by intros [= <- <-]].
    + split; [intros (-> & -> & ->); done | by intros [= <- <- <-]].
Qed.

Lemma shows_board_fields (s s' : Session) :
  board s' = board s → winner s' = winner s →
  winningLine s' = winningLine s → draw s' = draw s →
  shows_board s → shows_board s'.
Proof. unfold shows_board. by intros -> -> -> ->. Qed.

Lemma shows_board_detected (cl : Session) : shows_board (detectEffect cl cl).
Proof.
  unfold shows_board. rewrite detectEffect_board. unfold detectEffect.
  destruct (calculateWinner (board cl)) as [[m|] line]; [done|].
  by destruct (isDraw (board cl)).
Qed.

Lemma shows_board_reset (s : Session) : shows_board (resetGame s).
Proof. apply shows_board_detect, detectEffect_reset. Qed.

(** The two setter calls of [handlePlay], or none. *)
Lemma handlePlay_cases (cl : Session) (index : Z) (st : Session) :
  handlePlay cl index st = st
  ∨ (result cl = InProgress ∧ free (board cl) index
     ∧ handlePlay cl index st
       = setXIsNext (negb (xIsNext cl))
           (setBoard (Js.set (Js.slice (board cl)) index (Some (current cl)))
              st)).
Proof.
  destruct (decide (result cl = InProgress)) as [Hr|Hr].
  - destruct (truthy (Js.get (board cl) index)) eqn:Hf.
    + left. apply handlePlay_rejected. by right.
    + right. split; [done|]. split; [done|]. by apply handlePlay_accepted.
  - left. apply handlePlay_rejected. by left.
Qed.

(** After the effects, the session shows its board, provided the handler
    left the derived cells alone where it left the board alone. *)
Lemma commitState_shows_board (prev cl : Session) :
  (board prev = board cl → shows_board cl) → shows_board (commitState prev cl).
Proof.
  intros H. destruct (decide (mode prev = mode cl)) as [Hm|Hm].
  - rewrite commitState_same_mode by done. case_bool_decide as Hb.
    + apply shows_board_detected.
    + apply H. by destruct (decide (board prev = board cl)).
  - rewrite commitState_new_mode by done.
    apply (shows_board_reset (setMode (mode cl) cl)).
Qed.

Lemma step_shows_board (r : Q) (e : Event) (a a' : App) :
  shows_board (session a) → step r e a = Some a' → shows_board (session a').
Proof.
  intros Hs Hstep.
  assert (∀ cl pending,
            (board (session a) = board cl → shows_board cl) →
            settle r (session a) cl pending = Some a' →
            shows_board (session a')) as Hsettle.
  { intros cl pending Hcl Hst.
    destruct (settle_session r (session a) cl pending) as [p Hp].
    rewrite Hp in Hst. injection Hst as <-. simpl.
    by apply commitState_shows_board. }
  assert (∀ cl index,
            board (session a) = board (handlePlay cl index (session a)) →
            shows_board (handlePlay cl index (session a))) as Hplay.
  { intros cl index Hb.
    destruct (handlePlay_cases cl index (session a)) as [->|(_ & _ & E)];
      [done|].
    rewrite E in Hb |- *. by apply (shows_board_fields (session a)). }
  destruct e as [index| |m|]; simpl in Hstep.
  - eapply Hsettle; [apply Hplay | exact Hstep].
  - apply (Hsettle (resetGame (session a)) (timers a)); [|done].
    intros _. apply shows_board_reset.
  - apply (Hsettle (setMode m (session a)) (timers a)); [|done].
    intros _. by apply (shows_board_fields (session a)).
  - destruct (timers a) as [|t rest]; [by injection Hstep as <-|].
    eapply Hsettle; [apply Hplay | exact Hstep].
Qed.

Lemma reachable_shows_board (a : App) : reachable a → shows_board (session a).
Proof.
  induction 1 as [|r e a a' _ IH _ _ Hstep].
  - apply shows_board_detect. reflexivity.
  - by apply (step_shows_board r e a a').
Qed.

(** X2. In every state the application can reach, by any events with any
    indices, the derived cells agree with the board once the renders have
    come to rest: running the detection effect again changes nothing, the
    result shown is the evaluation of the board, and [draw] is never set
    together with a winner. *)
Theorem reachable_result_matches_board (a : App) :
  reachable a →
  detectEffect (session a) (session a) = session a
  ∧ result (session a) = evaluate (board (session a))
  ∧ ¬ (winner (session a) ≠ None ∧ draw (session a) = true).
Proof.
  intros Hr. apply reachable_shows_board in Hr.
  pose proof (proj1 (shows_board_detect _) Hr) as Hd.
  split; [done|]. split.
  - rewrite <- Hd at 1. apply result_detect.
  - intros [Hw Hdraw]. unfold shows_board in Hr.
    destruct (calculateWinner (board (session a))) as [[m|] line].
    + destruct Hr as (_ & _ & Hr). congruence.
    + by destruct Hr as (Hr & _).
Qed.

Lemma reachable_app_top_row : reachable app_top_row.
Proof.
  apply (reach_step 0%Q (Play 2) app_two_each); [|done|done|by vm_compute].
  apply (reach_step 0%Q (Play 5) (MkApp (MkSession Mode2p
           (Js.of_list [Some X; Some X; None; None; Some O; None;
                        None; None; None]) false None [] false) []));
    [|done|done|by vm_compute].
  apply (reach_step 0%Q (Play 1) (MkApp (MkSession Mode2p
           (Js.of_list [Some X; None; None; None; Some O; None;
                        None; None; None]) true None [] false) []));
    [|done|done|by vm_compute].
  apply (reach_step 0%Q (Play 4) (MkApp (MkSession Mode2p
           (Js.of_list [Some X; None; None; None; None; None;
                        None; None; None]) false None [] false) []));
    [|done|done|by vm_compute].
  apply (reach_step 0%Q (Play 0) start); [|done|done|by vm_compute].
  apply reach_start.
Defined.

Lemma reachable_result_matches_board_witness :
  reachable app_top_row
  ∧ result (session app_top_row) = evaluate (board (session app_top_row)).
Proof.
  split; [exact reachable_app_top_row|].
  exact (proj1 (proj2 (reachable_result_matches_board app_top_row
                         reachable_app_top_row))).
Defined.

(** ** The squares of the page *)

(** X3. [renderBoard] makes three rows of three squares; read row by row
    their indices [rowIdx * BOARD_SIZE + colIdx] are 0, 1, ..., 8, each
    once, so every click calls [handlePlay] with an index of the board. *)
Theorem renderBoard_squares (s : Session) :
  concat (renderBoard s) = square_at s <$> seqZ 0 9
  ∧ List.length (renderBoard s) = 3%nat
  ∧ Forall (λ row, List.length row = 3%nat) (renderBoard s)
  ∧ ∀ sq, sq ∈ concat (renderBoard s) → 0 <= sq_index sq <= 8.
Proof.
  split; [reflexivity|]. split; [reflexivity|]. split.
  - repeat constructor.
  - intros sq Hin.
    change (concat (renderBoard s)) with (square_at s <$> seqZ 0 9) in Hin.
    apply list_elem_of_fmap in Hin as (idx & -> & Hidx).
    apply elem_of_seqZ in Hidx. simpl. lia.
Qed.

Lemma rendered_square (s : Session) (sq : SquareProps) :
  sq ∈ concat (renderBoard s) ↔ ∃ idx, 0 <= idx < 9 ∧ sq = square_at s idx.
Proof.
  change (concat (renderBoard s)) with (square_at s <$> seqZ 0 9).
  rewrite list_elem_of_fmap. split.
  - intros (idx & -> & Hidx). apply elem_of_seqZ in Hidx. exists idx.
    split; [lia | done].
  - intros (idx & Hidx & ->). exists idx. split; [done|].
    apply elem_of_seqZ. lia.
Qed.

Lemma elem_of_line_cells (l : Z * Z * Z) (idx : Z) :
  idx ∈ line_cells l ↔ idx = l.1.1 ∨ idx = l.1.2 ∨ idx = l.2.
Proof.
  destruct l as [[x y] z]. simpl.
  rewrite !elem_of_cons, elem_of_nil. intuition auto.
Qed.

(** X4. In every reachable state: while the game is in progress no square
    is highlighted; once a winner is shown the highlighted squares are the
    three squares of one of the 8 lines, and each of them shows the
    winner's mark. *)
Theorem highlight_is_winning_line (a : App) :
  reachable a →
  (result (session a) = InProgress →
     ∀ sq, sq ∈ concat (renderBoard (session a)) → sq_highlight sq = false)
  ∧ (∀ w, winner (session a) = Some w →
       ∃ l, l ∈ lines
         ∧ holds_line (board (session a)) l w
         ∧ ∀ sq, sq ∈ concat (renderBoard (session a)) →
             (sq_highlight sq = true ↔ sq_index sq ∈ line_cells l)
             ∧ (sq_highlight sq = true → sq_value sq = Some (Some w))).
Proof.
  intros Hr. apply reachable_shows_board in Hr. unfold shows_board in Hr.
  pose proof (scan_lines_sound (board (session a)) lines) as Hs.
  fold (calculateWinner (board (session a))) in Hs.
  destruct (calculateWinner (board (session a))) as [[m|] line]; split.
  - intros Hres. apply result_InProgress in Hres as [Hw _].
    destruct Hr as (Hr & _). congruence.
  - intros w Hw. destruct Hr as (Hr & Hline & _).
    assert (m = w) as -> by congruence.
    destruct Hs as (i & l & Hi & Hl & -> & _). exists l.
    split; [by eapply list_elem_of_lookup_2|]. split; [done|].
    intros sq Hsq. apply rendered_square in Hsq as (idx & _ & ->). simpl.
    rewrite Hline, bool_decide_eq_true. split; [done|].
    intros Hin. apply elem_of_line_cells in Hin.
    destruct Hl as (E1 & E2 & E3). by destruct Hin as [->|[->| ->]].
  - intros Hres. apply result_InProgress in Hres as [_ Hd].
    destruct Hr as (_ & Hdraw & Hline).
    intros sq Hsq. apply rendered_square in Hsq as (idx & _ & ->). simpl.
    rewrite Hline by congruence. apply bool_decide_eq_false, not_elem_of_nil.
  - intros w Hw. destruct Hr as (Hr & _). congruence.
Qed.

Lemma highlight_is_winning_line_witness :
  reachable app_top_row
  ∧ ∃ l, l ∈ lines
      ∧ holds_line (board (session app_top_row)) l X
      ∧ ∀ sq, sq ∈ concat (renderBoard (session app_top_row)) →
          (sq_highlight sq = true ↔ sq_index sq ∈ line_cells l)
          ∧ (sq_highlight sq = true → sq_value sq = Some (Some X)).
Proof.
  split; [exact reachable_app_top_row|].
  apply (proj2 (highlight_is_winning_line app_top_row reachable_app_top_row)).
  reflexivity.
Defined.

(** ** Timeouts *)

Lemma renderLoop_result (r : Q) (prev cl : Session) (pending : list Timer) :
  renderLoop 3 r prev cl pending
  = Some (commitState prev cl,
          if bool_decide (commitState prev cl = cl)
          then commitTimers r prev cl pending
          else commitTimers r cl (commitState prev cl)
                 (commitTimers r prev cl pending)).
Proof.
  cbn [renderLoop]. unfold commit.
  case_bool_decide as H1; [by rewrite H1|].
  rewrite commitState_idem. by rewrite bool_decide_eq_true_2.
Qed.

Lemma settle_result (r : Q) (prev cl : Session) (pending : list Timer) :
  settle r prev cl pending
  = Some (MkApp (commitState prev cl)
            (if bool_decide (commitState prev cl = cl)
             then commitTimers r prev cl pending
             else commitTimers r cl (commitState prev cl)
                    (commitTimers r prev cl pending))).
Proof. unfold settle. by rewrite renderLoop_result. Qed.

Lemma cpuEffect_prefix (r : Q) (cl : Session) (pending : list Timer) :
  pending `prefix_of` cpuEffect r cl pending.
Proof.
  unfold cpuEffect.
  destruct (_ || _ || _); [done|]. destruct (negb _); [|done].
  destruct (cpuMove _ _ _); [|done]. by apply prefix_app_r.
Qed.

Lemma cpuEffect_X_next (r : Q) (cl : Session) (pending : list Timer) :
  xIsNext cl = true → cpuEffect r cl pending = pending.
Proof.
  intros Hx. unfold cpuEffect. rewrite Hx. simpl. by destruct (_ || _ || _).
Qed.

Lemma commitTimers_prefix (r : Q) (prev cl : Session) (pending : list Timer) :
  pending `prefix_of` commitTimers r prev cl pending.
Proof.
  unfold commitTimers. destruct (_ || _ || _ || _ || _); [|done].
  apply cpuEffect_prefix.
Qed.

Lemma commitTimers_X_next (r : Q) (prev cl : Session) (pending : list Timer) :
  xIsNext cl = true → commitTimers r prev cl pending = pending.
Proof.
  intros Hx. unfold commitTimers. rewrite cpuEffect_X_next by done.
  by destruct (_ || _ || _ || _ || _).
Qed.

Lemma commitState_xIsNext (prev cl : Session) :
  xIsNext (commitState prev cl)
  = if bool_decide (mode prev ≠ mode cl) then true else xIsNext cl.
Proof.
  case_bool_decide as Hm.
  - by rewrite commitState_new_mode.
  - rewrite commitState_same_mode by (by destruct (decide (mode prev = mode cl))).
    case_bool_decide; [apply detectEffect_xIsNext | done].
Qed.

Lemma commitState_board (prev cl : Session) :
  board (commitState prev cl)
  = if bool_decide (mode prev ≠ mode cl) then EMPTY_BOARD else board cl.
Proof.
  case_bool_decide as Hm.
  - by rewrite commitState_new_mode.
  - rewrite commitState_same_mode by (by destruct (decide (mode prev = mode cl))).
    case_bool_decide; [apply detectEffect_board | done].
Qed.

Lemma settle_prefix (r : Q) (prev cl : Session) (pending : list Timer) :
  ∃ a', settle r prev cl pending = Some a'
        ∧ session a' = commitState prev cl
        ∧ pending `prefix_of` timers a'.
Proof.
  rewrite settle_result. eexists. split; [done|]. split; [done|]. simpl.
  case_bool_decide; [apply commitTimers_prefix|].
  etrans; apply commitTimers_prefix.
Qed.

(** With X to move after the handler, the effects start no timeout. *)
Lemma settle_X_next (r : Q) (prev cl : Session) (pending : list Timer) :
  xIsNext cl = true →
  settle r prev cl pending = Some (MkApp (commitState prev cl) pending).
Proof.
  intros Hx. rewrite settle_result.
  rewrite (commitTimers_X_next r prev cl) by done.
  rewrite commitTimers_X_next; [by case_bool_decide|].
  rewrite commitState_xIsNext. by case_bool_decide.
Qed.

(** X5. No event cancels a timeout.  A reset leaves the pending timeouts
    exactly as they are; a play and a change of mode keep them all, in
    order, and can only add one at the end; an expiry removes the oldest
    one and no other. *)
Theorem timeouts_never_cancelled (r : Q) (a : App) :
  (∃ a', step r Reset a = Some a' ∧ timers a' = timers a)
  ∧ (∀ index, ∃ a', step r (Play index) a = Some a'
                    ∧ timers a `prefix_of` timers a')
  ∧ (∀ m, ∃ a', step r (SetMode m) a = Some a'
                ∧ timers a `prefix_of` timers a')
  ∧ (∃ a', step r Fire a = Some a' ∧ tail (timers a) `prefix_of` timers a').
Proof.
  split; [|split; [|split]].
  - simpl. rewrite settle_X_next by done. by eexists.
  - intros index. simpl.
    destruct (settle_prefix r (session a)
                (handlePlay (session a) index (session a)) (timers a))
      as (a' & -> & _ & Hp).
    by exists a'.
  - intros m. simpl.
    destruct (settle_prefix r (session a) (setMode m (session a)) (timers a))
      as (a' & -> & _ & Hp).
    by exists a'.
  - simpl. destruct (timers a) as [|t rest] eqn:Et.
    { exists a. split; [done | apply prefix_nil]. }
    simpl.
    destruct (settle_prefix r (session a)
                (handlePlay (timer_closure t) (timer_move t) (session a)) rest)
      as (a' & -> & _ & Hp).
    by exists a'.
Qed.



(** ** What the page keeps *)

Lemma board9_place (b : Board) (i : Z) (m : Marker) :
  board9 b → 0 <= i < 9 → board9 (Js.set (Js.slice b) i (Some m)).
Proof.
  intros [Hlen Hall] Hi. split.
  - rewrite length_set_inside; [done|]. rewrite length_slice. lia.
  - intros k Hk. rewrite get_place by lia.
    case_decide; [done | by apply Hall].
Qed.

Lemma sum_list_with_change (f g : Z → nat) (i : Z) (l : list Z) :
  NoDup l → (∀ k, k ∈ l → k ≠ i → f k = g k) →
  (sum_list_with f l + (if decide (i ∈ l) then g i else 0)
   = sum_list_with g l + (if decide (i ∈ l) then f i else 0))%nat.
Proof.
  induction l as [|a l IH]; intros Hnd Hfg; cbn [sum_list_with].
  - by rewrite !decide_False by apply not_elem_of_nil.
  - apply NoDup_cons in Hnd as [Ha Hnd].
    specialize (IH Hnd).
    assert (∀ k, k ∈ l → k ≠ i → f k = g k) as Hl
      by (intros k Hk; apply Hfg; by right).
    specialize (IH Hl).
    destruct (decide (a = i)) as [->|Hne].
    + rewrite !(decide_True (P := i ∈ i :: l)) by left.
      rewrite !(decide_False (P := i ∈ l)) in IH by done. lia.
    + rewrite (Hfg a) by (done || left).
      destruct (decide (i ∈ l)) as [Hin|Hin].
      * rewrite !(decide_True (P := i ∈ a :: l)) by (by right). lia.
      * rewrite !(decide_False (P := i ∈ a :: l)); [lia | |];
          intros H; apply elem_of_cons in H as [->|H]; done.
Qed.

(** Marking a free square adds one to the count of that marker and leaves
    the other count alone. *)
Lemma count_mark_place (b : Board) (i : Z) (m m' : Marker) :
  Js.length b = 9 → 0 <= i < 9 → free b i →
  count_mark (Js.set (Js.slice b) i (Some m)) m'
  = (count_mark b m' + if decide (m = m') then 1 else 0)%nat.
Proof.
  intros Hlen Hi Hfree. unfold count_mark.
  pose proof (sum_list_with_change
    (λ k, if bool_decide (Js.get (Js.set (Js.slice b) i (Some m)) k
                          = Some (Some m')) then 1%nat else 0%nat)
    (λ k, if bool_decide (Js.get b k = Some (Some m')) then 1%nat else 0%nat)
    i (seqZ 0 9) (NoDup_seqZ 0 9)) as H.
  rewrite !decide_True in H by (apply elem_of_seqZ; lia).
  rewrite get_set_eq in H.
  rewrite (bool_decide_eq_false_2 (Js.get b i = Some (Some m'))) in H.
  2:{ unfold free in Hfree. intros E. by rewrite E in Hfree. }
  rewrite (bool_decide_ext (Some (Some m) = Some (Some m')) (m = m')) in H
    by (split; [by intros [= ->] | by intros ->]).
  assert (sum_list_with
            (λ k, if bool_decide (Js.get (Js.set (Js.slice b) i (Some m)) k
                                  = Some (Some m')) then 1%nat else 0%nat)
            (seqZ 0 9) + 0
          = sum_list_with
              (λ k, if bool_decide (Js.get b k = Some (Some m'))
                    then 1%nat else 0%nat)
              (seqZ 0 9)
            + (if bool_decide (m = m') then 1 else 0))%nat as E.
  { apply H. intros k Hk Hne. apply elem_of_seqZ in Hk.
    rewrite get_place by lia. by rewrite decide_False. }
  rewrite Nat.add_0_r in E. rewrite E.
  by destruct (decide (m = m')) as [Hm|Hm];
    [rewrite bool_decide_eq_true_2 | rewrite bool_decide_eq_false_2].
Qed.

Lemma count_mark_EMPTY (m : Marker) : count_mark EMPTY_BOARD m = 0%nat.
Proof. by destruct m. Qed.

(** A handler result with a good board gives a good session after the
    effects. *)
Lemma commitState_board_ok (prev cl : Session) :
  board9 (board cl) → turn_matches cl →
  board9 (board (commitState prev cl)) ∧ turn_matches (commitState prev cl).
Proof.
  intros Hb Ht. unfold turn_matches.
  rewrite commitState_board, commitState_xIsNext.
  case_bool_decide; [|done].
  split; [apply EMPTY_BOARD_board9|]. by rewrite !count_mark_EMPTY.
Qed.

Lemma cpuEffect_ok (r : Q) (cl : Session) (pending : list Timer) :
  random_value r → board9 (board cl) → turn_matches cl →
  Forall timer_ok pending → Forall timer_ok (cpuEffect r cl pending).
Proof.
  intros H0 Hb Ht Hp. unfold cpuEffect.
  destruct (bool_decide (mode cl ≠ ModeCpu)); [done|]. simpl.
  destruct (winner cl) as [w|] eqn:Hw.
  { by rewrite bool_decide_eq_true_2. }
  rewrite bool_decide_eq_false_2 by (by intros H; apply H). simpl.
  destruct (draw cl) eqn:Hd; [done|].
  destruct (xIsNext cl) eqn:Hx; [done|]. simpl.
  destruct (cpuMove r (board cl) O) as [mv|] eqn:Hmv; [|done].
  apply Forall_app. split; [done|]. apply Forall_singleton.
  apply (cpuMove_Some_free r (board cl) O mv H0 Hb) in Hmv as [Hr Hfree].
  unfold timer_ok; simpl. split; [done|].
  split; [by apply result_InProgress|]. do 2 (split; [done|]).
  split; [lia | done].
Qed.

Lemma commitTimers_ok (r : Q) (prev cl : Session) (pending : list Timer) :
  random_value r → board9 (board cl) → turn_matches cl →
  Forall timer_ok pending → Forall timer_ok (commitTimers r prev cl pending).
Proof.
  intros H0 Hb Ht Hp. unfold commitTimers.
  destruct (_ || _ || _ || _ || _); [|done]. by apply cpuEffect_ok.
Qed.

Lemma settle_ok (r : Q) (prev cl : Session) (pending : list Timer) (a' : App) :
  random_value r → board9 (board cl) → turn_matches cl →
  Forall timer_ok pending →
  settle r prev cl pending = Some a' → page_ok a'.
Proof.
  intros H0 Hb Ht Hp. rewrite settle_result. intros [= <-].
  destruct (commitState_board_ok prev cl Hb Ht) as [Hb' Ht'].
  unfold page_ok; simpl. split; [done|]. split; [done|].
  case_bool_decide; [by apply commitTimers_ok|].
  apply commitTimers_ok; try done. by apply commitTimers_ok.
Qed.

(** The board and the turn after the two setter calls of [handlePlay]. *)
Lemma played_ok (cl st : Session) (index : Z) :
  board9 (board cl) → turn_matches cl → 0 <= index < 9 →
  free (board cl) index →
  let st' := setXIsNext (negb (xIsNext cl))
               (setBoard (Js.set (Js.slice (board cl)) index
                            (Some (current cl))) st) in
  board9 (board st') ∧ turn_matches st'.
Proof.
  intros Hb Ht Hi Hf. simpl. split; [by apply board9_place|].
  unfold turn_matches in *; simpl.
  destruct Hb as [Hlen _]. rewrite !count_mark_place by done.
  unfold current. destruct (xIsNext cl); simpl;
    repeat case_decide; try done; lia.
Qed.

Lemma page_event_play (a : App) (idx : Z) :
  page_event a (Play idx)
  ↔ 0 <= idx < 9 ∧ square_disabled (session a) idx = false.
Proof.
  simpl. split.
  - intros (sq & Hsq & Hd & <-).
    apply rendered_square in Hsq as (idx & Hidx & ->). done.
  - intros [Hidx Hd]. exists (square_at (session a) idx).
    split; [|done]. apply rendered_square. by exists idx.
Qed.

Lemma page_step_ok (r : Q) (e : Event) (a a' : App) :
  page_ok a → page_event a e → random_value r →
  step r e a = Some a' → page_ok a'.
Proof.
  intros (Hb & Ht & Hp) He H0 Hstep.
  destruct e as [idx| |m|]; simpl in Hstep.
  - apply page_event_play in He as [Hidx Hd].
    apply enabled_square in Hd as (Hres & Hfree & _).
    rewrite handlePlay_accepted in Hstep by done.
    destruct (played_ok (session a) (session a) idx Hb Ht Hidx Hfree)
      as [Hb' Ht'].
    exact (settle_ok r _ _ _ a' H0 Hb' Ht' Hp Hstep).
  - refine (settle_ok r _ _ _ a' H0 _ _ Hp Hstep).
    + apply EMPTY_BOARD_board9.
    + unfold turn_matches; simpl. by rewrite !count_mark_EMPTY.
  - exact (settle_ok r _ (setMode m (session a)) _ a' H0 Hb Ht Hp Hstep).
  - destruct (timers a) as [|t rest] eqn:Et.
    + injection Hstep as <-. unfold page_ok. by rewrite Et.
    + apply Forall_cons in Hp as [(Hbt & Hrt & Hxt & Htt & Hmt & Hft) Hrest].
      rewrite handlePlay_accepted in Hstep by done.
      destruct (played_ok (timer_closure t) (session a) (timer_move t)
                  Hbt Htt Hmt Hft) as [Hb' Ht'].
      exact (settle_ok r _ _ _ a' H0 Hb' Ht' Hrest Hstep).
Qed.

Lemma page_reachable_ok (a : App) : page_reachable a → page_ok a.
Proof.
  induction 1 as [|r e a a' _ IH He H0 Hstep].
  - split; [apply EMPTY_BOARD_board9|]. split; [reflexivity | constructor].
  - by apply (page_step_ok r e a a').
Qed.

Lemma page_reachable_app_cpu_x0 : page_reachable app_cpu_x0.
Proof.
  apply (page_step 0%Q (Play 0)
           (MkApp (MkSession ModeCpu EMPTY_BOARD true None [] false) []));
    [| |exact random_value_zero|by vm_compute].
  - apply (page_step 0%Q (SetMode ModeCpu) start);
      [apply page_start|done|exact random_value_zero|by vm_compute].
  - apply page_event_play. split; [lia | reflexivity].
Defined.

(** X6. Through the page (clicks on enabled squares, Reset, the mode
    selector, expiring timeouts) the board always has exactly 9 cells, each
    holding X, O or null, and the turn agrees with the marks: X and O have
    equally many squares when X is next, X has one more when O is next.
    This holds even when late timeouts write an older board back. *)
Theorem page_keeps_board_and_turn (a : App) :
  page_reachable a →
  board9 (board (session a))
  ∧ count_mark (board (session a)) X
    = (count_mark (board (session a)) O
       + (if xIsNext (session a) then 0 else 1))%nat.
Proof.
  intros Hr. apply page_reachable_ok in Hr as (Hb & Ht & _). done.
Qed.

Lemma page_keeps_board_and_turn_witness :
  page_reachable app_cpu_x0
  ∧ count_mark (board (session app_cpu_x0)) X
    = (count_mark (board (session app_cpu_x0)) O + 1)%nat.
Proof.
  split; [exact page_reachable_app_cpu_x0|].
  exact (proj2 (page_keeps_board_and_turn app_cpu_x0 page_reachable_app_cpu_x0)).
Defined.

(** X7. Through the page, a timeout that expires is never turned away,
    whatever happened since it was started: the board becomes the board of
    the render that started it with O added at the chosen square, which
    was free there and lies in 0..8; X is next; the other timeouts stay
    and none is started. *)
Theorem expiry_always_plays (r : Q) (a : App) (t : Timer) (rest : list Timer) :
  page_reachable a → timers a = t :: rest →
  ∃ a', step r Fire a = Some a'
    ∧ board (session a')
      = Js.set (Js.slice (board (timer_closure t))) (timer_move t) (Some O)
    ∧ 0 <= timer_move t < 9
    ∧ free (board (timer_closure t)) (timer_move t)
    ∧ current (session a') = X
    ∧ timers a' = rest.
Proof.
  intros Hr Et. apply page_reachable_ok in Hr as (_ & _ & Hp).
  rewrite Et in Hp.
  apply Forall_cons in Hp as [(Hbt & Hrt & Hxt & Htt & Hmt & Hft) _].
  simpl. rewrite Et. rewrite handlePlay_accepted by done.
  rewrite Hxt. unfold current. rewrite Hxt. simpl.
  rewrite settle_X_next by done.
  eexists. split; [done|]. simpl.
  rewrite commitState_board, commitState_xIsNext. simpl.
  rewrite (bool_decide_eq_false_2 (mode (session a) ≠ mode (session a)))
    by auto.
  done.
Qed.

Lemma expiry_always_plays_witness :
  ∃ a', step 0%Q Fire app_cpu_x0 = Some a'
    ∧ board (session a') = Js.set (Js.slice board_x0) 4 (Some O)
    ∧ 0 <= 4 < 9
    ∧ free board_x0 4
    ∧ current (session a') = X
    ∧ timers a' = [].
Proof.
  exact (expiry_always_plays 0%Q app_cpu_x0 (MkTimer session_cpu_x0 4) []
           page_reachable_app_cpu_x0 eq_refl).
Defined.

(** ** Plays *)

(** An accepted play, with the renders after it. *)
Lemma step_play_accepted (r : Q) (a : App) (index : Z) :
  result (session a) = InProgress → free (board (session a)) index →
  let s1 := setXIsNext (negb (xIsNext (session a)))
              (setBoard (Js.set (Js.slice (board (session a))) index
                           (Some (current (session a)))) (session a)) in
  step r (Play index) a
  = Some (MkApp (detectEffect s1 s1)
            (if bool_decide (detectEffect s1 s1 = s1)
             then commitTimers r (session a) s1 (timers a)
             else commitTimers r s1 (detectEffect s1 s1)
                    (commitTimers r (session a) s1 (timers a)))).
Proof.
  intros Hres Hfree s1. simpl. rewrite handlePlay_accepted by done.
  fold s1. rewrite settle_result.
  assert (commitState (session a) s1 = detectEffect s1 s1) as ->; [|done].
  rewrite commitState_same_mode by done.
  by rewrite bool_decide_eq_true_2 by (by apply place_changes).
Qed.

(** X8. A play never erases or overwrites a mark on a cell of the board:
    whatever the index, the cells below the length of the array that held
    a marker hold it afterwards, and every such cell other than the one
    played is as before.  What an earlier play stored under a key outside
    the array is not kept: an accepted play copies the board with
    [slice()], and the copy has no key outside the array but the one just
    played. *)
Theorem play_keeps_marks (r : Q) (a : App) (index : Z) :
  ∃ a', step r (Play index) a = Some a'
    ∧ (∀ j, 0 <= j < Js.length (board (session a)) →
            j ≠ index ∨ taken (board (session a)) j →
            Js.get (board (session a')) j = Js.get (board (session a)) j)
    ∧ (result (session a) = InProgress → free (board (session a)) index →
       ∀ j, j < 0 ∨ Js.length (board (session a)) <= j → j ≠ index →
            Js.get (board (session a')) j = None).
Proof.
  destruct (handlePlay_cases (session a) index (session a))
    as [E|(Hres & Hfree & _)].
  - exists a. split; [|split; [done|]].
    + simpl. rewrite E, settle_unchanged. by destruct a.
    + intros Hres Hfree. exfalso.
      rewrite handlePlay_accepted in E by done.
      apply (f_equal xIsNext) in E. simpl in E.
      by destruct (xIsNext (session a)).
  - eexists. split; [by apply step_play_accepted|]. simpl.
    rewrite detectEffect_board. simpl. split.
    + intros j Hj Hor. rewrite get_place by done.
      case_decide as Hji; [|done]. subst j.
      destruct Hor as [Hne|Ht]; [done|].
      by destruct (free_not_taken _ _ Hfree Ht).
    + intros _ _ j Hj Hne. rewrite get_set_ne by done. rewrite get_slice.
      rewrite bool_decide_eq_false_2; [done | lia].
Qed.

(** A mark stored at key -1 is gone after the next accepted play. *)
Lemma play_drops_key_outside :
  ∃ a1 a2,
    step 0%Q (Play (-1)) start = Some a1
    ∧ Js.get (board (session a1)) (-1) = Some (Some X)
    ∧ step 0%Q (Play 0) a1 = Some a2
    ∧ Js.get (board (session a2)) (-1) = None
    ∧ Js.get (board (session a2)) 0 = Some (Some O).
Proof. do 2 eexists. split; [by vm_compute|]. by vm_compute. Qed.

(** X9. Against the computer the page never lets the human place an O: a
    click on a square that is not disabled puts an X there. *)
Theorem human_plays_X_against_computer (r : Q) (a : App) (idx : Z) :
  mode (session a) = ModeCpu → square_disabled (session a) idx = false →
  ∃ a', step r (Play idx) a = Some a'
    ∧ Js.get (board (session a')) idx = Some (Some X).
Proof.
  intros Hm Hd. apply enabled_square in Hd as (Hres & Hfree & Hturn).
  assert (xIsNext (session a) = true) as Hx.
  { destruct (xIsNext (session a)); [done|]. by destruct Hturn. }
  eexists. split; [by apply step_play_accepted|]. simpl.
  rewrite detectEffect_board. simpl. rewrite get_set_eq.
  unfold current. by rewrite Hx.
Qed.

Lemma human_plays_X_against_computer_witness :
  ∃ a', step 0%Q (Play 3)
          (MkApp (MkSession ModeCpu board_x0_o4 true None [] false) [])
        = Some a'
    ∧ Js.get (board (session a')) 3 = Some (Some X).
Proof.
  apply (human_plays_X_against_computer 0%Q
           (MkApp (MkSession ModeCpu board_x0_o4 true None [] false) []) 3);
    reflexivity.
Defined.

(** ** A play outside the board *)

Lemma calculateWinner_ext (b b' : Board) :
  (∀ k, 0 <= k < 9 → Js.get b' k = Js.get b k) →
  calculateWinner b' = calculateWinner b.
Proof.
  intros H. unfold calculateWinner, lines. cbn [scan_lines].
  unfold line_full. cbn [fst snd]. by rewrite !H by lia.
Qed.

Lemma length_set_ge {A} (a : Js.array A) (i : Z) (v : A) :
  Js.length a <= Js.length (Js.set a i v).
Proof. unfold Js.set; simpl. destruct (Js.is_index i); lia. Qed.

Lemma isDraw_place_outside (b : Board) (i : Z) (m : Marker) :
  i < 0 ∨ Js.length b <= i →
  isDraw (Js.set (Js.slice b) i (Some m)) = isDraw b.
Proof.
  intros Hi. apply eq_iff_eq_true. unfold isDraw. rewrite !every_spec. split.
  - intros H j v Hj Hv. apply (H j); [|].
    + pose proof (length_set_ge (Js.slice b) i (Some m)) as Hl.
      rewrite length_slice in Hl. lia.
    + rewrite get_set_ne by lia. rewrite get_slice.
      by rewrite bool_decide_eq_true_2.
  - intros H j v Hj Hv. destruct (decide (i = j)) as [->|Hne].
    + rewrite get_set_eq in Hv. injection Hv as <-.
      by apply bool_decide_eq_true.
    + rewrite get_set_ne, get_slice in Hv by done.
      case_bool_decide; [|done]. by apply (H j).
Qed.

(** X10. [handlePlay] has no bounds check.  On a board of 9 cells with the
    game in progress, a play at an index outside 0..8 (that no earlier such
    play has used) is accepted: the 9 squares and the result stay as they
    were, and the turn passes to the other marker. *)
Theorem play_outside_board (r : Q) (a : App) (index : Z) :
  result (session a) = InProgress → board9 (board (session a)) →
  index < 0 ∨ 9 <= index → free (board (session a)) index →
  ∃ a', step r (Play index) a = Some a'
    ∧ (∀ k, 0 <= k < 9 →
         Js.get (board (session a')) k = Js.get (board (session a)) k)
    ∧ Js.get (board (session a')) index = Some (Some (current (session a)))
    ∧ result (session a') = evaluate (board (session a))
    ∧ current (session a') = other (current (session a)).
Proof.
  intros Hres [Hlen Hall] Hi Hfree.
  eexists. split; [by apply step_play_accepted|]. simpl.
  rewrite detectEffect_board, result_detect. simpl.
  assert (∀ k, 0 <= k < 9 →
            Js.get (Js.set (Js.slice (board (session a))) index
                      (Some (current (session a)))) k
            = Js.get (board (session a)) k) as Hsame.
  { intros k Hk. rewrite get_place by lia. by rewrite decide_False by lia. }
  split; [done|]. split; [apply get_set_eq|]. split.
  - unfold evaluate, detectEffect. simpl.
    rewrite (calculateWinner_ext (board (session a))) by done.
    by rewrite isDraw_place_outside by lia.
  - unfold current. rewrite detectEffect_xIsNext. simpl.
    by destruct (xIsNext (session a)).
Qed.

Lemma play_outside_board_witness :
  ∃ a', step 0%Q (Play 9) start = Some a'
    ∧ (∀ k, 0 <= k < 9 →
         Js.get (board (session a')) k = Js.get (board (session start)) k)
    ∧ Js.get (board (session a')) 9 = Some (Some (current (session start)))
    ∧ result (session a') = evaluate (board (session start))
    ∧ current (session a') = other (current (session start)).
Proof.
  apply (play_outside_board 0%Q start 9);
    [reflexivity | apply EMPTY_BOARD_board9 | lia | reflexivity].
Defined.

(** ** The computer's answer *)

(** X11. [cpuMove] draws a random number only in its last two tiers: when
    the player or the opponent has a winning square, or square 4 is free,
    the move is the same whatever [Math.random()] returns. *)
Theorem cpuMove_random_only_late (r r' : Q) (b : Board) (own : Marker) :
  (∃ i, 0 <= i < 9 ∧ wins_at b own i)
  ∨ (∃ i, 0 <= i < 9 ∧ wins_at b (other own) i)
  ∨ free b 4 →
  cpuMove r b own = cpuMove r' b own.
Proof.
  intros H. unfold cpuMove.
  replace (if decide (own = X) then O else X) with (other own)
    by (by destruct own).
  destruct (List.find (completes b own) (seqZ 0 9)) as [j|] eqn:F1; [done|].
  destruct (List.find (completes b (other own)) (seqZ 0 9)) as [j|] eqn:F2;
    [done|].
  destruct (truthy (Js.get b 4)) eqn:E4; [|done]. exfalso.
  destruct H as [(i & Hi & Hw)|[(i & Hi & Hw)|Hf]].
  - apply completes_true in Hw. by rewrite (find_seqZ_None _ _ F1 i Hi) in Hw.
  - apply completes_true in Hw. by rewrite (find_seqZ_None _ _ F2 i Hi) in Hw.
  - unfold free in Hf. congruence.
Qed.

Lemma cpuMove_random_only_late_witness :
  cpuMove 0%Q board_x0 O = cpuMove (1 # 2) board_x0 O.
Proof.
  apply (cpuMove_random_only_late 0%Q (1 # 2) board_x0 O).
  right. right. reflexivity.
Defined.

(** After the detection effect the computer-move effect starts nothing
    more: either the game has ended or nothing it depends on changed. *)
Lemma commitTimers_after_detect (r : Q) (s1 : Session) (pending : list Timer) :
  winner s1 = None → draw s1 = false →
  commitTimers r s1 (detectEffect s1 s1) pending = pending.
Proof.
  intros Hw Hd. unfold commitTimers, cpuEffect.
  rewrite detectEffect_xIsNext, detectEffect_mode, detectEffect_board.
  rewrite Hw, Hd.
  destruct (winner (detectEffect s1 s1)) as [w|],
    (draw (detectEffect s1 s1));
    repeat case_bool_decide; simpl; try done; congruence.
Qed.

(** X12. Against the computer, with no timeout pending: a click on an
    enabled square of a 9-cell board that leaves a free square starts
    exactly one timeout, also when the click wins the game; when it
    expires O is added on a square that was free, other than the one
    clicked, X is next, and no timeout is left. *)
Theorem computer_answers_click (r r' : Q) (a : App) (idx : Z) :
  random_value r →
  board9 (board (session a)) → mode (session a) = ModeCpu →
  timers a = [] →
  0 <= idx < 9 → square_disabled (session a) idx = false →
  (∃ k, 0 <= k < 9 ∧ k ≠ idx ∧ free (board (session a)) k) →
  ∃ a1 a2 mv,
    step r (Play idx) a = Some a1
    ∧ List.length (timers a1) = 1%nat
    ∧ step r' Fire a1 = Some a2
    ∧ board (session a2)
      = Js.set (Js.slice (Js.set (Js.slice (board (session a))) idx (Some X)))
          mv (Some O)
    ∧ 0 <= mv < 9 ∧ mv ≠ idx ∧ free (board (session a)) mv
    ∧ current (session a2) = X
    ∧ timers a2 = [].
Proof.
  intros H0 Hb Hm Et Hidx Hd (k & Hk & Hne & Hkfree).
  apply enabled_square in Hd as (Hres & Hfree & Hturn).
  assert (xIsNext (session a) = true) as Hx.
  { destruct (xIsNext (session a)); [done|]. by destruct Hturn. }
  pose proof (step_play_accepted r a idx Hres Hfree) as Hstep.
  cbv zeta in Hstep. unfold current in Hstep. rewrite Hx, Et in Hstep.
  cbn [negb] in Hstep.
  set (b1 := Js.set (Js.slice (board (session a))) idx (Some X)) in *.
  set (s1 := setXIsNext false (setBoard b1 (session a))) in *.
  apply result_InProgress in Hres as [Hw Hdr].
  assert (board9 b1) as Hb1 by (by apply board9_place).
  destruct (cpuMove_is_Some r b1 O H0 Hb1) as [mv Hmv].
  { exists k. split; [done|]. unfold free, b1.
    destruct Hb as [Hlen _]. rewrite get_place by lia.
    by rewrite decide_False. }
  destruct (cpuMove_Some_free r b1 O mv H0 Hb1 Hmv) as [Hmvr Hmvf].
  assert (mv ≠ idx) as Hmi.
  { intros ->. unfold free, b1 in Hmvf. by rewrite get_set_eq in Hmvf. }
  assert (commitTimers r (session a) s1 [] = [MkTimer s1 mv]) as Ht1.
  { unfold commitTimers, cpuEffect. subst s1.
    cbn [xIsNext mode winner draw board setXIsNext setBoard].
    rewrite Hx, Hm, Hw, Hdr, Hmv.
    repeat case_bool_decide; simpl; try done; congruence. }
  rewrite Ht1 in Hstep.
  rewrite (commitTimers_after_detect r s1) in Hstep by done.
  assert (step r (Play idx) a
          = Some (MkApp (detectEffect s1 s1) [MkTimer s1 mv])) as Hstep'.
  { rewrite Hstep. by case_bool_decide. }
  exists (MkApp (detectEffect s1 s1) [MkTimer s1 mv]).
  eexists. exists mv. split; [done|]. split; [done|]. split.
  { simpl. rewrite handlePlay_accepted;
      [|by apply result_InProgress | done].
    simpl. by rewrite settle_X_next. }
  cbn [session timers]. unfold current.
  rewrite commitState_board, commitState_xIsNext.
  cbn [mode board xIsNext setXIsNext setBoard].
  rewrite (bool_decide_eq_false_2
             (mode (detectEffect s1 s1) ≠ mode (detectEffect s1 s1))) by auto.
  subst s1. cbn [xIsNext setXIsNext].
  split; [done|]. split; [done|]. split; [done|]. split; [|done].
  unfold free, b1 in Hmvf. destruct Hb as [Hlen _].
  rewrite get_place in Hmvf by lia. by rewrite decide_False in Hmvf.
Qed.

Lemma computer_answers_click_witness :
  ∃ a1 a2 mv,
    step 0%Q (Play 0)
      (MkApp (MkSession ModeCpu EMPTY_BOARD true None [] false) [])
    = Some a1
    ∧ List.length (timers a1) = 1%nat
    ∧ step 0%Q Fire a1 = Some a2
    ∧ board (session a2)
      = Js.set (Js.slice (Js.set (Js.slice EMPTY_BOARD) 0 (Some X)))
          mv (Some O)
    ∧ 0 <= mv < 9 ∧ mv ≠ 0 ∧ free EMPTY_BOARD mv
    ∧ current (session a2) = X
    ∧ timers a2 = [].
Proof.
  apply (computer_answers_click 0%Q 0%Q
           (MkApp (MkSession ModeCpu EMPTY_BOARD true None [] false) []) 0);
    [exact random_value_zero | apply EMPTY_BOARD_board9 | reflexivity
    | reflexivity
    | lia | reflexivity |].
  exists 1. split; [lia|]. split; [lia | reflexivity].
Defined.

(** ** The status line *)

(** X13. The status line tells the outcome apart: two sessions that show
    the same text have the same winner, agree on a draw when there is no
    winner, and have the same marker to move while the game is in
    progress. *)
Theorem status_tells_outcome (s s' : Session) :
  statusText s = statusText s' →
  winner s = winner s'
  ∧ (winner s = None → draw s = draw s')
  ∧ (result s = InProgress → current s = current s').
Proof.
  unfold statusText, result, current.
  destruct s as [md b x w wl d], s' as [md' b' x' w' wl' d']; simpl.
  destruct md, md', w as [[|]|], w' as [[|]|], d, d', x, x';
    intros H; vm_compute in H; try discriminate H; done.
Qed.

Lemma status_tells_outcome_witness :
  winner app_top_row.(session) = winner (setMode ModeCpu app_top_row.(session))
  ∧ (winner app_top_row.(session) = None →
     draw app_top_row.(session) = draw (setMode ModeCpu app_top_row.(session)))
  ∧ (result app_top_row.(session) = InProgress →
     current app_top_row.(session)
     = current (setMode ModeCpu app_top_row.(session))).
Proof.
  apply (status_tells_outcome (session app_top_row)
           (setMode ModeCpu (session app_top_row))).
  reflexivity.
Defined.
